(** * Attendance Tracker API: a shallow embedding of the route handlers

    The two entry points of the repository ([server.js], routes under
    [/api], and its unprefixed twin) register the same handlers; they
    differ in logging, in the CORS policy and in a wall-clock [timestamp]
    field that [server.js] adds to its JSON bodies.  This development
    models what they share: the handlers, the SQL statements they send,
    and the two tables those statements act on.

    - A request field is a JavaScript value ([jsval]); the guards
      [if (!emp_id || ...)] are JavaScript truthiness.
    - The database is the pair of tables declared by
      [initializeDatabase_table] together with the sequence behind
      [id SERIAL].  A table is the list of its rows, so that the
      [PRIMARY KEY] and [UNIQUE] constraints are properties to be proved
      of every reachable state rather than facts built into the type.
    - A handler is a computation in a small reader/state/exception monad
      over one database session: [query] runs a statement, may throw the
      engine's error message, and records what other sessions can see.

    Model boundary.  The session is live: [pool.connect()] yields a
    client, and the transaction-control commands [BEGIN], [COMMIT] and
    [ROLLBACK] are acknowledged.  Data statements can be rejected, either
    by the schema (a [DATE] or [INTEGER] parameter that does not parse, a
    constraint) or by an engine fault supplied by the environment
    (deadlock, timeout, ...).  Loss of the connection itself is outside
    the model. *)

From Stdlib Require Import ZArith List String Ascii Bool Lia.
From Stdlib Require Import Permutation Sorted DecimalString DecimalNat DecimalZ.
Import ListNotations.

Local Open Scope string_scope.
Local Open Scope list_scope.
Local Open Scope Z_scope.

(** ** JavaScript values of request fields *)

(** [JNum n] is a number that JavaScript prints as the decimal integer
    [n].  [JObject wire] stands for any other truthy value (an object, an
    array, any other number), carried with the text node-postgres sends
    for it as a statement parameter. *)
Inductive jsval : Type :=
| JUndefined
| JNull
| JBool (b : bool)
| JNum (n : Z)
| JStr (s : string)
| JObject (wire : string).

(** [!v] is [negb (truthy v)]. *)
Definition truthy (v : jsval) : bool :=
  match v with
  | JUndefined | JNull => false
  | JBool b => b
  | JNum n => negb (n =? 0)
  | JStr s => negb (s =? "")%string
  | JObject _ => true
  end.

Definition text_of_Z (n : Z) : string := NilEmpty.string_of_int (Z.to_int n).

(** node-postgres [prepareValue]: [null] and [undefined] are sent as SQL
    NULL ([None]), everything else as text. *)
Definition prepareValue (v : jsval) : option string :=
  match v with
  | JUndefined | JNull => None
  | JBool true => Some "true"
  | JBool false => Some "false"
  | JNum n => Some (text_of_Z n)
  | JStr s => Some s
  | JObject wire => Some wire
  end.

(** ** Tables *)

(** [CREATE TABLE employees (emp_id TEXT PRIMARY KEY, name TEXT NOT NULL,
    created_at TIMESTAMP ..., updated_at TIMESTAMP ...)]. *)
Record employee : Type := mkEmployee {
  emp_id : string;
  name : string;
  created_at : Z;
  updated_at : Z
}.

(** [CREATE TABLE attendance_records (id SERIAL PRIMARY KEY, emp_id TEXT,
    emp_name TEXT, attendance_type TEXT, date DATE, timestamp TIMESTAMP,
    FOREIGN KEY (emp_id) REFERENCES employees, UNIQUE(emp_id, date))].
    A [DATE] is its day number, a [TIMESTAMP] a point on the clock;
    [rec_emp_id] is the record's [emp_id] column. *)
Record attendance : Type := mkAttendance {
  id : Z;
  rec_emp_id : string;
  emp_name : string;
  attendance_type : string;
  date : Z;
  timestamp : Z
}.

Record tables : Type := mkTables {
  employees : list employee;
  attendance_records : list attendance
}.

(** The stored state: the two tables and the next value of
    [attendance_records_id_seq]. *)
Record database : Type := mkDatabase {
  tbl : tables;
  id_seq : Z
}.

(** The state right after [initializeDatabase_table] on a fresh store. *)
Definition initial_db : database := mkDatabase (mkTables [] []) 1.

(** [SERIAL] is a 32-bit column: the sequence stops at this value. *)
Definition INT4_MAX : Z := 2147483647.

Definition key_eqb (e : string) (d : Z) (r : attendance) : bool :=
  (rec_emp_id r =? e)%string && (date r =? d).

(** ** SQL statements sent by the handlers *)

(** One conjunct appended to [WHERE 1=1] by the filtered listing; the
    number is the placeholder [$n] it refers to. *)
Inductive cond : Type :=
| DateGe (n : nat)
| DateLe (n : nat)
| TypeEq (n : nat).

Inductive stmt : Type :=
| BEGIN
| COMMIT
| ROLLBACK
| UpsertEmployee (p1 p2 : option string)
| UpsertAttendance (p1 p2 p3 p4 : option string)
| DeleteAttendance (p1 : option string)
| SelectAttendance (conds : list cond) (params : list (option string))
| SelectRange (p1 p2 p3 : option string)
| CountEmployees
| CountAttendance
| CountAttendanceOfType (literal : string)
| CountByType
| SelectEmployees
| SelectByEmployee (p1 : option string)
| SelectNow.

(** What node-postgres hands back: [rows] in the shape of each statement,
    and [rowCount] for the [DELETE].  A count is a [bigint], which the
    driver delivers as decimal text. *)
Inductive qresult : Type :=
| Done
| Returning (ids : list Z)
| Deleted (rowCount : Z)
| AttendanceRows (rows : list attendance)
| CountRow (count : string)
| GroupRows (rows : list (string * string))
| EmployeeRows (rows : list employee)
| NowRow (current_time : Z).

Definition count_text (n : nat) : string :=
  NilEmpty.string_of_uint (Nat.to_uint n).

(** ** ORDER BY: insertion sort under a boolean order *)

Fixpoint insert_by {A : Type} (leb : A -> A -> bool) (x : A) (l : list A) : list A :=
  match l with
  | [] => [x]
  | y :: l' => if leb x y then x :: l else y :: insert_by leb x l'
  end.

Fixpoint order_by {A : Type} (leb : A -> A -> bool) (l : list A) : list A :=
  match l with
  | [] => []
  | x :: l' => insert_by leb x (order_by leb l')
  end.

(** [GROUP BY attendance_type]: the distinct types, in order of first
    appearance. *)
Fixpoint distinct (l : list string) : list string :=
  match l with
  | [] => []
  | x :: l' => x :: filter (fun y => negb (y =? x)%string) (distinct l')
  end.

Definition count_of_type (ty : string) (rows : list attendance) : nat :=
  List.length (filter (fun r => (attendance_type r =? ty)%string) rows).

(** ** The engine: what each data statement does to the tables *)

(** The engine's error messages, abridged: the engine goes on to quote the
    offending value or constraint. *)

Definition ERR_NOT_NULL : string := "null value violates not-null constraint".
Definition ERR_DATE : string := "invalid input syntax for type date".
Definition ERR_INTEGER : string := "invalid input syntax for type integer".
Definition ERR_SEQUENCE : string := "nextval: reached maximum value of sequence".
Definition ERR_PKEY : string := "duplicate key value violates unique constraint".
Definition ERR_FKEY : string := "insert or update violates foreign key constraint".
Definition ERR_PARAM : string := "there is no parameter with that number".

(** [INSERT INTO employees ... ON CONFLICT (emp_id) DO UPDATE SET name = $2,
    updated_at = CURRENT_TIMESTAMP]. *)
Definition upsert_employee (now : Z) (i n : string) (es : list employee) : list employee :=
  if existsb (fun e => (emp_id e =? i)%string) es
  then map (fun e => if (emp_id e =? i)%string
                     then mkEmployee (emp_id e) n (created_at e) now
                     else e) es
  else es ++ [mkEmployee i n now now].

(** [INSERT INTO attendance_records ... ON CONFLICT (emp_id, date) DO UPDATE
    SET emp_name = $2, attendance_type = $3, timestamp = CURRENT_TIMESTAMP
    RETURNING id], with [newid] already drawn from the sequence. *)
Definition upsert_attendance (now : Z) (e n ty : string) (d newid : Z) (t : tables)
  : string + (list Z * list attendance) :=
  let rows := attendance_records t in
  if existsb (key_eqb e d) rows
  then inr (map id (filter (key_eqb e d) rows),
            map (fun r => if key_eqb e d r
                          then mkAttendance (id r) (rec_emp_id r) n ty (date r) now
                          else r) rows)
  else if negb (existsb (fun x => (emp_id x =? e)%string) (employees t))
  then inl ERR_FKEY
  else if existsb (fun r => id r =? newid) rows
  then inl ERR_PKEY
  else inr ([newid], rows ++ [mkAttendance newid e n ty d now]).

Definition by_count_desc (g1 g2 : string * nat) : bool := (snd g2 <=? snd g1)%nat.

Definition by_date_desc (r1 r2 : attendance) : bool := date r2 <=? date r1.

(** ** A reference engine: ISO dates, decimal integers, byte-wise collation *)

Definition digit (c : ascii) : option Z :=
  let n := Z.of_nat (nat_of_ascii c) in
  if (48 <=? n) && (n <=? 57) then Some (n - 48) else None.

Fixpoint digits (s : string) (acc : Z) : option Z :=
  match s with
  | EmptyString => Some acc
  | String c s' =>
      match digit c with
      | Some d => digits s' (acc * 10 + d)
      | None => None
      end
  end.

Definition days_in_month (y m : Z) : Z :=
  if m =? 2
  then if ((y mod 4 =? 0) && negb (y mod 100 =? 0)) || (y mod 400 =? 0) then 29 else 28
  else if (m =? 4) || (m =? 6) || (m =? 9) || (m =? 11) then 30 else 31.

(** Days since 1970-01-01 of a date of the proleptic Gregorian calendar. *)
Definition days_from_civil (y m d : Z) : Z :=
  let y' := if m <=? 2 then y - 1 else y in
  let era := y' / 400 in
  let yoe := y' - era * 400 in
  let doy := (153 * (if 2 <? m then m - 3 else m + 9) + 2) / 5 + d - 1 in
  let doe := yoe * 365 + yoe / 4 - yoe / 100 + doy in
  era * 146097 + doe - 719468.

(** [YYYY-MM-DD], the format the API documents for its dates. *)
Definition iso_date_in (s : string) : option Z :=
  if negb (Nat.eqb (String.length s) 10) then None
  else
    match digits (substring 0 4 s) 0, get 4 s, digits (substring 5 2 s) 0,
          get 7 s, digits (substring 8 2 s) 0 with
    | Some y, Some "-"%char, Some m, Some "-"%char, Some d =>
        if (1 <=? m) && (m <=? 12) && (1 <=? d) && (d <=? days_in_month y m)
        then Some (days_from_civil y m d)
        else None
    | _, _, _, _, _ => None
    end.

(** A decimal numeral with an optional minus sign, within 32 bits. *)
Definition dec_int4_in (s : string) : option Z :=
  let in_range (n : Z) := if (- INT4_MAX - 1 <=? n) && (n <=? INT4_MAX) then Some n else None in
  match s with
  | EmptyString => None
  | String "-"%char EmptyString => None
  | String "-"%char s' =>
      match digits s' 0 with
      | Some n => in_range (- n)
      | None => None
      end
  | _ =>
      match digits s 0 with
      | Some n => in_range n
      | None => None
      end
  end.

Section Engine.

(** The engine's input functions for [DATE] and [INTEGER] parameters
    ([None]: the text is rejected) and the collation order of [TEXT]. *)
Variable date_in : string -> option Z.
Variable int4_in : string -> option Z.
Variable text_leb : string -> string -> bool.

(** [ORDER BY date DESC, emp_id]. *)
Definition by_date_desc_emp (r1 r2 : attendance) : bool :=
  (date r2 <? date r1) || ((date r1 =? date r2) && text_leb (rec_emp_id r1) (rec_emp_id r2)).

(** The row test of one [AND ...] conjunct, given the bound parameters.
    A comparison with NULL holds of no row. *)
Definition cond_test (params : list (option string)) (c : cond)
  : string + (attendance -> bool) :=
  match c with
  | DateGe n =>
      match nth_error params (n - 1)%nat with
      | None => inl ERR_PARAM
      | Some None => inr (fun _ => false)
      | Some (Some s) =>
          match date_in s with
          | None => inl ERR_DATE
          | Some d => inr (fun r => d <=? date r)
          end
      end
  | DateLe n =>
      match nth_error params (n - 1)%nat with
      | None => inl ERR_PARAM
      | Some None => inr (fun _ => false)
      | Some (Some s) =>
          match date_in s with
          | None => inl ERR_DATE
          | Some d => inr (fun r => date r <=? d)
          end
      end
  | TypeEq n =>
      match nth_error params (n - 1)%nat with
      | None => inl ERR_PARAM
      | Some None => inr (fun _ => false)
      | Some (Some s) => inr (fun r => (attendance_type r =? s)%string)
      end
  end.

Fixpoint where_tests (params : list (option string)) (cs : list cond)
  : string + list (attendance -> bool) :=
  match cs with
  | [] => inr []
  | c :: cs' =>
      match cond_test params c with
      | inl err => inl err
      | inr f =>
          match where_tests params cs' with
          | inl err => inl err
          | inr fs => inr (f :: fs)
          end
      end
  end.

(** [exec now q t seq]: run the data statement [q] at clock [now] on
    tables [t] with the sequence at [seq]; either the engine's error or
    the result, the new tables and the new sequence value. *)
Definition exec (now : Z) (q : stmt) (t : tables) (seq : Z)
  : string + (qresult * tables * Z) :=
  match q with
  | BEGIN | COMMIT | ROLLBACK => inr (Done, t, seq)
  | UpsertEmployee (Some i) (Some n) =>
      inr (Done, mkTables (upsert_employee now i n (employees t)) (attendance_records t), seq)
  | UpsertEmployee _ _ => inl ERR_NOT_NULL
  | UpsertAttendance (Some e) (Some n) (Some ty) (Some ds) =>
      match date_in ds with
      | None => inl ERR_DATE
      | Some d =>
          if INT4_MAX <? seq then inl ERR_SEQUENCE
          else match upsert_attendance now e n ty d seq t with
               | inl err => inl err
               | inr (ids, rows) => inr (Returning ids, mkTables (employees t) rows, seq + 1)
               end
      end
  | UpsertAttendance _ _ _ _ => inl ERR_NOT_NULL
  | DeleteAttendance None => inr (Deleted 0, t, seq)
  | DeleteAttendance (Some s) =>
      match int4_in s with
      | None => inl ERR_INTEGER
      | Some i =>
          let kept := filter (fun r => negb (id r =? i)) (attendance_records t) in
          inr (Deleted (Z.of_nat (List.length (attendance_records t) - List.length kept)%nat),
               mkTables (employees t) kept, seq)
      end
  | SelectAttendance conds params =>
      match where_tests params conds with
      | inl err => inl err
      | inr fs =>
          inr (AttendanceRows
                 (order_by by_date_desc_emp
                    (filter (fun r => forallb (fun f => f r) fs) (attendance_records t))),
               t, seq)
      end
  | SelectRange (Some e) (Some s1) (Some s2) =>
      match date_in s1, date_in s2 with
      | Some d1, Some d2 =>
          inr (AttendanceRows
                 (order_by by_date_desc
                    (filter (fun r => (rec_emp_id r =? e)%string && ((d1 <=? date r) && (date r <=? d2)))
                       (attendance_records t))),
               t, seq)
      | _, _ => inl ERR_DATE
      end
  | SelectRange _ _ _ => inr (AttendanceRows [], t, seq)
  | CountEmployees => inr (CountRow (count_text (List.length (employees t))), t, seq)
  | CountAttendance => inr (CountRow (count_text (List.length (attendance_records t))), t, seq)
  | CountAttendanceOfType ty =>
      inr (CountRow (count_text (count_of_type ty (attendance_records t))), t, seq)
  | CountByType =>
      inr (GroupRows
             (map (fun g => (fst g, count_text (snd g)))
                (order_by by_count_desc
                   (map (fun ty => (ty, count_of_type ty (attendance_records t)))
                      (distinct (map attendance_type (attendance_records t)))))),
           t, seq)
  | SelectEmployees =>
      inr (EmployeeRows (order_by (fun a b => text_leb (name a) (name b)) (employees t)), t, seq)
  | SelectByEmployee (Some e) =>
      inr (AttendanceRows
             (order_by by_date_desc
                (filter (fun r => (rec_emp_id r =? e)%string) (attendance_records t))),
           t, seq)
  | SelectByEmployee None => inr (AttendanceRows [], t, seq)
  | SelectNow => inr (NowRow now, t, seq)
  end.


(** ** One database session *)

(** An entry of the session's statement log: the statement sent, the
    error it raised if any, and the committed tables right after it,
    which is all that another session can observe. *)
Record entry : Type := mkEntry {
  e_stmt : stmt;
  e_error : option string;
  e_visible : tables
}.

(** [visible] holds the committed tables, [txn] the working copy of an
    open transaction, [clients_out] the clients taken from the pool and
    not yet released. *)
Record session : Type := mkSession {
  visible : tables;
  txn : option tables;
  seqv : Z;
  log : list entry;
  clients_out : nat
}.

(** What a request finds around it: the clock behind
    [CURRENT_TIMESTAMP], and for the n-th statement it sends the engine
    fault, if any, that rejects it. *)
Record env : Type := mkEnv {
  now : Z;
  fault : nat -> option string
}.

(** A handler step: reads the environment, updates the session, and
    either throws ([inl err.message]) or returns. *)
Definition M (A : Type) : Type := env -> session -> (string + A) * session.

Definition ret {A : Type} (a : A) : M A := fun _ s => (inr a, s).

Definition bind {A B : Type} (m : M A) (k : A -> M B) : M B :=
  fun e s =>
    match m e s with
    | (inl err, s') => (inl err, s')
    | (inr a, s') => k a e s'
    end.

Definition throw {A : Type} (err : string) : M A := fun _ s => (inl err, s).

(** [try { m } catch (err) { h err }]. *)
Definition try_catch {A : Type} (m : M A) (h : string -> M A) : M A :=
  fun e s =>
    match m e s with
    | (inl err, s') => h err e s'
    | r => r
    end.

(** [try { m } finally { f }]: [f] runs on both exits and the exit of
    [m] stands, unless [f] itself throws. *)
Definition finally {A : Type} (m : M A) (f : M unit) : M A :=
  fun e s =>
    match m e s with
    | (r, s') =>
        match f e s' with
        | (inl err, s'') => (inl err, s'')
        | (inr _, s'') => (r, s'')
        end
    end.

Notation "x <- m ;; k" := (bind m (fun x => k))
  (at level 61, m at next level, right associativity).

Definition current (s : session) : tables :=
  match txn s with
  | Some w => w
  | None => visible s
  end.

Definition logged (q : stmt) (err : option string) (s0 s : session) : session :=
  mkSession (visible s) (txn s) (seqv s)
    (log s0 ++ [mkEntry q err (visible s)]) (clients_out s).

(** [client.query(q)] and [pool.query(q)].  Outside a transaction a data
    statement commits at once; inside, it works on the transaction's
    copy until [COMMIT] publishes it or [ROLLBACK] drops it.  The
    sequence is not transactional. *)
Definition query (q : stmt) : M qresult :=
  fun e s =>
    match q with
    | BEGIN =>
        (inr Done, logged q None s
           (mkSession (visible s) (Some (current s)) (seqv s) (log s) (clients_out s)))
    | COMMIT =>
        (inr Done, logged q None s
           (mkSession (current s) None (seqv s) (log s) (clients_out s)))
    | ROLLBACK =>
        (inr Done, logged q None s
           (mkSession (visible s) None (seqv s) (log s) (clients_out s)))
    | _ =>
        match fault e (List.length (log s)) with
        | Some err => (inl err, logged q (Some err) s s)
        | None =>
            match exec (now e) q (current s) (seqv s) with
            | inl err => (inl err, logged q (Some err) s s)
            | inr (r, t', seq') =>
                (inr r, logged q None s
                   match txn s with
                   | Some _ => mkSession (visible s) (Some t') seq' (log s) (clients_out s)
                   | None => mkSession t' None seq' (log s) (clients_out s)
                   end)
            end
        end
    end.

(** [pool.connect()] and [client.release()]. *)
Definition connect : M unit :=
  fun _ s => (inr tt, mkSession (visible s) (txn s) (seqv s) (log s) (S (clients_out s))).

Definition release : M unit :=
  fun _ s => (inr tt, mkSession (visible s) (txn s) (seqv s) (log s) (pred (clients_out s))).

(** ** Responses *)

(** The JSON bodies the handlers send (without the wall-clock
    [timestamp] that [server.js] adds to some of them).  A statistic is
    [None] where [parseInt] yields NaN. *)
Inductive body : Type :=
| ErrorBody (error : string)
| EmployeeSaved (message : string) (emp_id : jsval)
| AttendanceAdded (message : string) (id : Z)
| MessageBody (message : string)
| RowsBody (rows : list attendance)
| EmployeesBody (rows : list employee)
| BannerBody (message : string)
| HealthBody (status : string) (error : option string)
| StatsBody (totalEmployees totalRecords wfoRecords wfhRecords : option Z)
            (attendanceByType : list (string * string)).

Record response : Type := mkResponse {
  status : Z;
  json : body
}.

(** [parseInt] on the text of a count: an unsigned decimal numeral.
    (JavaScript also skips leading blanks and trailing garbage, which
    such a text does not have.) *)
Definition parseInt (s : string) : option Z :=
  match s with
  | EmptyString => None
  | _ =>
      match NilEmpty.uint_of_string s with
      | Some u => Some (Z.of_nat (Nat.of_uint u))
      | None => None
      end
  end.

(** Reading a result: [result.rows], [result.rows[0].id],
    [result.rows[0].count], [result.rowCount]. *)
Definition rows (r : qresult) : list attendance :=
  match r with
  | AttendanceRows l => l
  | _ => []
  end.

Definition group_rows (r : qresult) : list (string * string) :=
  match r with
  | GroupRows l => l
  | _ => []
  end.

Definition employee_rows (r : qresult) : list employee :=
  match r with
  | EmployeeRows l => l
  | _ => []
  end.

Definition ERR_UNDEFINED : string := "Cannot read properties of undefined".

Definition rows0_id (r : qresult) : M Z :=
  match r with
  | Returning (i :: _) => ret i
  | _ => throw ERR_UNDEFINED
  end.

Definition rows0_count (r : qresult) : M string :=
  match r with
  | CountRow c => ret c
  | _ => throw ERR_UNDEFINED
  end.

Definition rowCount (r : qresult) : Z :=
  match r with
  | Deleted n => n
  | _ => 0
  end.

(** ** The route handlers *)

(** [POST /employees]. *)
Definition post_employees (emp_id name : jsval) : M response :=
  if negb (truthy emp_id) || negb (truthy name)
  then ret (mkResponse 400 (ErrorBody "Employee ID and name are required"))
  else
    try_catch
      (_ <- query (UpsertEmployee (prepareValue emp_id) (prepareValue name)) ;;
       ret (mkResponse 200 (EmployeeSaved "Employee saved successfully" emp_id)))
      (fun err => ret (mkResponse 500 (ErrorBody err))).

(** [POST /attendance]. *)
Definition post_attendance (emp_id emp_name attendance_type date : jsval) : M response :=
  if negb (truthy emp_id) || negb (truthy emp_name)
     || negb (truthy attendance_type) || negb (truthy date)
  then ret (mkResponse 400 (ErrorBody "All fields are required"))
  else
    _ <- connect ;;
    finally
      (try_catch
         (_ <- query BEGIN ;;
          _ <- query (UpsertEmployee (prepareValue emp_id) (prepareValue emp_name)) ;;
          result <- query (UpsertAttendance (prepareValue emp_id) (prepareValue emp_name)
                             (prepareValue attendance_type) (prepareValue date)) ;;
          _ <- query COMMIT ;;
          i <- rows0_id result ;;
          ret (mkResponse 200 (AttendanceAdded "Attendance record added successfully" i)))
         (fun err =>
            _ <- query ROLLBACK ;;
            ret (mkResponse 500 (ErrorBody err))))
      release.

(** [GET /attendance]: the statement is assembled from the filters that
    are truthy, each with the next placeholder number. *)
Definition get_attendance (start_date end_date attendance_type : jsval) : M response :=
  let q0 : list cond := [] in
  let params0 : list (option string) := [] in
  let paramCount0 : nat := 0%nat in
  let '(q1, params1, paramCount1) :=
    if truthy start_date
    then (q0 ++ [DateGe (S paramCount0)], params0 ++ [prepareValue start_date], S paramCount0)
    else (q0, params0, paramCount0) in
  let '(q2, params2, paramCount2) :=
    if truthy end_date
    then (q1 ++ [DateLe (S paramCount1)], params1 ++ [prepareValue end_date], S paramCount1)
    else (q1, params1, paramCount1) in
  let '(q3, params3, _) :=
    if truthy attendance_type
    then (q2 ++ [TypeEq (S paramCount2)], params2 ++ [prepareValue attendance_type], S paramCount2)
    else (q2, params2, paramCount2) in
  try_catch
    (result <- query (SelectAttendance q3 params3) ;;
     ret (mkResponse 200 (RowsBody (rows result))))
    (fun err => ret (mkResponse 500 (ErrorBody err))).

(** [GET /stats]. *)
Definition get_stats : M response :=
  try_catch
    (totalEmpResult <- query CountEmployees ;;
     c1 <- rows0_count totalEmpResult ;;
     totalRecordsResult <- query CountAttendance ;;
     c2 <- rows0_count totalRecordsResult ;;
     wfoResult <- query (CountAttendanceOfType "WFO") ;;
     c3 <- rows0_count wfoResult ;;
     wfhResult <- query (CountAttendanceOfType "WFH") ;;
     c4 <- rows0_count wfhResult ;;
     attendanceByTypeResult <- query CountByType ;;
     ret (mkResponse 200
            (StatsBody (parseInt c1) (parseInt c2) (parseInt c3) (parseInt c4)
               (group_rows attendanceByTypeResult))))
    (fun err => ret (mkResponse 500 (ErrorBody err))).

(** [DELETE /attendance/:id]; a route parameter is always a string. *)
Definition delete_attendance (id : string) : M response :=
  try_catch
    (result <- query (DeleteAttendance (Some id)) ;;
     if rowCount result =? 0
     then ret (mkResponse 404 (ErrorBody "Record not found"))
     else ret (mkResponse 200 (MessageBody "Record deleted successfully")))
    (fun err => ret (mkResponse 500 (ErrorBody err))).

(** [GET /attendance-range/:emp_id/:start_date/:end_date]. *)
Definition get_attendance_range (emp_id start_date end_date : string) : M response :=
  try_catch
    (result <- query (SelectRange (Some emp_id) (Some start_date) (Some end_date)) ;;
     ret (mkResponse 200 (RowsBody (rows result))))
    (fun err => ret (mkResponse 500 (ErrorBody err))).

(** [GET /]. *)
Definition get_root : M response :=
  ret (mkResponse 200 (BannerBody "Attendance Tracker API is running!")).

(** [GET /employees]: [SELECT * FROM employees ORDER BY name]. *)
Definition get_employees : M response :=
  try_catch
    (result <- query SelectEmployees ;;
     ret (mkResponse 200 (EmployeesBody (employee_rows result))))
    (fun err => ret (mkResponse 500 (ErrorBody err))).

(** [GET /attendance/:emp_id]. *)
Definition get_attendance_of (emp_id : string) : M response :=
  try_catch
    (result <- query (SelectByEmployee (Some emp_id)) ;;
     ret (mkResponse 200 (RowsBody (rows result))))
    (fun err => ret (mkResponse 500 (ErrorBody err))).

(** [GET /health]: [SELECT NOW()]. *)
Definition get_health : M response :=
  try_catch
    (_ <- query SelectNow ;;
     ret (mkResponse 200 (HealthBody "OK" None)))
    (fun err => ret (mkResponse 500 (HealthBody "ERROR" (Some err)))).

(** ** Serving requests *)

Inductive request : Type :=
| POST_employees (emp_id name : jsval)
| POST_attendance (emp_id emp_name attendance_type date : jsval)
| GET_attendance (start_date end_date attendance_type : jsval)
| GET_stats
| DELETE_attendance (id : string)
| GET_attendance_range (emp_id start_date end_date : string)
| GET_root
| GET_employees
| GET_attendance_of (emp_id : string)
| GET_health.

Definition route (r : request) : M response :=
  match r with
  | POST_employees i n => post_employees i n
  | POST_attendance i n ty d => post_attendance i n ty d
  | GET_attendance s e ty => get_attendance s e ty
  | GET_stats => get_stats
  | DELETE_attendance i => delete_attendance i
  | GET_attendance_range i s e => get_attendance_range i s e
  | GET_root => get_root
  | GET_employees => get_employees
  | GET_attendance_of i => get_attendance_of i
  | GET_health => get_health
  end.

(** The outcome of serving one request: the response sent (or the
    error the handler's promise rejects with), the database left behind,
    the statements sent, whether a transaction is still open and how
    many clients are still checked out. *)
Record served : Type := mkServed {
  outcome : string + response;
  final : database;
  statements : list entry;
  open_txn : bool;
  leaked : nat
}.

Definition handle (h : M response) (e : env) (db : database) : served :=
  match h e (mkSession (tbl db) None (id_seq db) [] 0) with
  | (r, s) =>
      mkServed r (mkDatabase (visible s) (seqv s)) (log s)
        (match txn s with Some _ => true | None => false end) (clients_out s)
  end.

Definition serve (e : env) (r : request) (db : database) : served :=
  handle (route r) e db.

(** The states the API can bring a fresh store to. *)
Inductive reachable : database -> Prop :=
| reachable_initial : reachable initial_db
| reachable_serve db e r : reachable db -> reachable (final (serve e r db)).

Definition healthy (t : Z) : env := mkEnv t (fun _ => None).


(** ** Basic facts *)

Lemma truthy_prepareValue (v : jsval) :
  truthy v = true -> exists s, prepareValue v = Some s.
Proof.
  destruct v as [| |b|n|s|w]; simpl; try discriminate; intros H; eauto.
  destruct b; eauto.
Qed.

(** A field that is missing ([undefined]), [null] or the empty string. *)
Definition missing_or_empty (v : jsval) : Prop :=
  v = JUndefined \/ v = JNull \/ v = JStr "".

Lemma missing_or_empty_falsy (v : jsval) : missing_or_empty v -> truthy v = false.
Proof. intros [-> | [-> | ->]]; reflexivity. Qed.

Lemma database_eta (db : database) : mkDatabase (tbl db) (id_seq db) = db.
Proof. destruct db; reflexivity. Qed.

(** C8: requests with a missing or empty required field are answered 400
    before any statement is sent, and the database is left as it was. *)
Theorem validation_rejects_before_any_statement (e : env) (db : database) :
  (forall i n, missing_or_empty i \/ missing_or_empty n ->
     let r := serve e (POST_employees i n) db in
     outcome r = inr (mkResponse 400 (ErrorBody "Employee ID and name are required"))
     /\ statements r = [] /\ final r = db)
  /\
  (forall i n ty d,
     missing_or_empty i \/ missing_or_empty n \/ missing_or_empty ty \/ missing_or_empty d ->
     let r := serve e (POST_attendance i n ty d) db in
     outcome r = inr (mkResponse 400 (ErrorBody "All fields are required"))
     /\ statements r = [] /\ final r = db /\ leaked r = 0%nat).
Proof.
  split.
  - intros i n H r. subst r. unfold serve, route, handle, post_employees.
    assert (G : negb (truthy i) || negb (truthy n) = true).
    { destruct H as [H | H]; apply missing_or_empty_falsy in H; rewrite H; simpl; auto.
      apply orb_true_r. }
    rewrite G. simpl. rewrite database_eta. auto.
  - intros i n ty d H r. subst r. unfold serve, route, handle, post_attendance.
    assert (G : negb (truthy i) || negb (truthy n) || negb (truthy ty) || negb (truthy d) = true).
    { destruct H as [H | [H | [H | H]]]; apply missing_or_empty_falsy in H; rewrite H; simpl;
        rewrite ?orb_true_r; auto. }
    rewrite G. simpl. rewrite database_eta. auto.
Qed.


(** ** The attendance transaction, case by case *)

Lemma existsb_filter_nonempty {A : Type} (f : A -> bool) (l : list A) :
  existsb f l = true -> exists x l', filter f l = x :: l'.
Proof.
  induction l as [|a l IH]; simpl; [discriminate|].
  destruct (f a); simpl; eauto.
Qed.

Lemma upsert_attendance_returns_a_row now e n ty d newid t ids rows' :
  upsert_attendance now e n ty d newid t = inr (ids, rows') ->
  exists i0 ids', ids = i0 :: ids'.
Proof.
  unfold upsert_attendance.
  destruct (existsb (key_eqb e d) (attendance_records t)) eqn:E.
  - intros H; inversion H; subst.
    destruct (existsb_filter_nonempty _ _ E) as (x & l' & Hf).
    rewrite Hf. simpl. eauto.
  - destruct (negb _); [discriminate|].
    destruct (existsb (fun r => id r =? newid) _); [discriminate|].
    intros H; inversion H; eauto.
Qed.

Lemma exec_upsert_attendance_shape now p1 p2 p3 p4 t seq r t' seq' :
  exec now (UpsertAttendance p1 p2 p3 p4) t seq = inr (r, t', seq') ->
  exists i0 ids rows',
    r = Returning (i0 :: ids) /\ t' = mkTables (employees t) rows' /\ seq' = seq + 1.
Proof.
  unfold exec.
  destruct p1 as [e|]; [|discriminate]; destruct p2 as [n|]; [|discriminate].
  destruct p3 as [ty|]; [|discriminate]; destruct p4 as [ds|]; [|discriminate].
  destruct (date_in ds) as [d|]; [|discriminate].
  destruct (INT4_MAX <? seq); [discriminate|].
  destruct (upsert_attendance now e n ty d seq t) as [err|[ids rows']] eqn:U; [discriminate|].
  intros H; inversion H; subst.
  destruct (upsert_attendance_returns_a_row _ _ _ _ _ _ _ _ _ U) as (i0 & ids' & ->).
  eauto 6.
Qed.

(** The three ways a validated [POST /attendance] can run: the employee
    upsert is rejected, the record upsert is rejected, or both succeed. *)
Lemma post_attendance_run (e : env) (db : database) (i n ty d : jsval) (si sn sty sd : string) :
  truthy i = true -> truthy n = true -> truthy ty = true -> truthy d = true ->
  prepareValue i = Some si -> prepareValue n = Some sn ->
  prepareValue ty = Some sty -> prepareValue d = Some sd ->
  let r := serve e (POST_attendance i n ty d) db in
  let UE := UpsertEmployee (Some si) (Some sn) in
  let UA := UpsertAttendance (Some si) (Some sn) (Some sty) (Some sd) in
  let t0 := tbl db in
  let t1 := mkTables (upsert_employee (now e) si sn (employees t0)) (attendance_records t0) in
  (exists err,
      fault e 1%nat = Some err /\
      r = mkServed (inr (mkResponse 500 (ErrorBody err))) db
            [mkEntry BEGIN None t0; mkEntry UE (Some err) t0; mkEntry ROLLBACK None t0]
            false 0)
  \/ (exists err,
      fault e 1%nat = None /\
      (fault e 2%nat = Some err
       \/ (fault e 2%nat = None /\ exec (now e) UA t1 (id_seq db) = inl err)) /\
      r = mkServed (inr (mkResponse 500 (ErrorBody err))) db
            [mkEntry BEGIN None t0; mkEntry UE None t0; mkEntry UA (Some err) t0;
             mkEntry ROLLBACK None t0]
            false 0)
  \/ (exists i0 ids rows',
      fault e 1%nat = None /\ fault e 2%nat = None /\
      exec (now e) UA t1 (id_seq db)
        = inr (Returning (i0 :: ids), mkTables (employees t1) rows', id_seq db + 1) /\
      r = mkServed
            (inr (mkResponse 200 (AttendanceAdded "Attendance record added successfully" i0)))
            (mkDatabase (mkTables (employees t1) rows') (id_seq db + 1))
            [mkEntry BEGIN None t0; mkEntry UE None t0; mkEntry UA None t0;
             mkEntry COMMIT None (mkTables (employees t1) rows')]
            false 0).
Proof.
  intros Ti Tn Tty Td Pi Pn Pty Pd r UE UA t0 t1.
  destruct db as [t seq]. subst r UE UA t0 t1.
  unfold serve, route, handle, post_attendance.
  rewrite Ti, Tn, Tty, Td, Pi, Pn, Pty, Pd.
  cbv [negb orb bind finally try_catch connect release query ret throw logged current
       visible txn seqv log clients_out tbl id_seq app List.length].
  destruct (fault e 1%nat) as [err1|] eqn:F1.
  - left. exists err1. split; reflexivity.
  - right.
    change (exec (now e) (UpsertEmployee (Some si) (Some sn)) t seq)
      with (@inr string _ (Done, mkTables (upsert_employee (now e) si sn (employees t))
                                  (attendance_records t), seq)).
    cbv beta iota.
    cbv [visible txn seqv log clients_out app List.length].
    destruct (fault e 2%nat) as [err2|] eqn:F2.
    + left. exists err2. split; [reflexivity|]. split; [left; reflexivity|]. reflexivity.
    + destruct (exec (now e) (UpsertAttendance (Some si) (Some sn) (Some sty) (Some sd))
                  (mkTables (upsert_employee (now e) si sn (employees t)) (attendance_records t)) seq)
        as [err|[[r t'] seq']] eqn:X.
      * left. exists err. split; [reflexivity|]. split; [right; split; reflexivity|]. reflexivity.
      * right.
        destruct (exec_upsert_attendance_shape _ _ _ _ _ _ _ _ _ _ X) as (i0 & ids & rows' & -> & -> & ->).
        exists i0, ids, rows'. repeat split; reflexivity.
Qed.


(** C1: a validated attendance upsert is all-or-nothing.  If a statement
    of the transaction is rejected, the response is 500 with that
    statement's error message, the transaction ends with ROLLBACK, the
    database is the one the request found, and at no point did the
    committed tables differ from it.  If none is rejected, the employee
    upsert and the record upsert become visible together, at COMMIT. *)
Theorem attendance_upsert_is_atomic (e : env) (db : database) (i n ty d : jsval) :
  truthy i = true -> truthy n = true -> truthy ty = true -> truthy d = true ->
  let r := serve e (POST_attendance i n ty d) db in
  (forall en err,
      In en (statements r) -> e_error en = Some err ->
      outcome r = inr (mkResponse 500 (ErrorBody err))
      /\ final r = db
      /\ Forall (fun x => e_visible x = tbl db) (statements r)
      /\ (exists l, statements r = l ++ [mkEntry ROLLBACK None (tbl db)])
      /\ open_txn r = false /\ leaked r = 0%nat)
  /\
  ((forall en, In en (statements r) -> e_error en = None) ->
   exists i0 ids t1 t2,
     outcome r = inr (mkResponse 200 (AttendanceAdded "Attendance record added successfully" i0))
     /\ exec (now e) (UpsertEmployee (prepareValue i) (prepareValue n)) (tbl db) (id_seq db)
        = inr (Done, t1, id_seq db)
     /\ exec (now e) (UpsertAttendance (prepareValue i) (prepareValue n)
                        (prepareValue ty) (prepareValue d)) t1 (id_seq db)
        = inr (Returning (i0 :: ids), t2, id_seq db + 1)
     /\ final r = mkDatabase t2 (id_seq db + 1)
     /\ map e_stmt (statements r)
        = [BEGIN; UpsertEmployee (prepareValue i) (prepareValue n);
           UpsertAttendance (prepareValue i) (prepareValue n) (prepareValue ty) (prepareValue d);
           COMMIT]
     /\ map e_visible (statements r) = [tbl db; tbl db; tbl db; t2]
     /\ open_txn r = false /\ leaked r = 0%nat).
Proof.
  intros Ti Tn Tty Td r.
  destruct (truthy_prepareValue _ Ti) as [si Pi].
  destruct (truthy_prepareValue _ Tn) as [sn Pn].
  destruct (truthy_prepareValue _ Tty) as [sty Pty].
  destruct (truthy_prepareValue _ Td) as [sd Pd].
  pose proof (post_attendance_run e db i n ty d si sn sty sd Ti Tn Tty Td Pi Pn Pty Pd) as R.
  cbv zeta in R. fold r in R. rewrite Pi, Pn, Pty, Pd.
  destruct R as [(err & F1 & R) | [(err & F1 & F2 & R) | (i0 & ids & rows' & F1 & F2 & X & R)]];
    rewrite R; cbn [statements outcome final open_txn leaked]; split.
  - intros en err' [<- | [<- | [<- | []]]]; cbn [e_error]; try discriminate.
    intros H; inversion H; subst err'.
    repeat split; auto.
    exists [mkEntry BEGIN None (tbl db);
            mkEntry (UpsertEmployee (Some si) (Some sn)) (Some err) (tbl db)].
    reflexivity.
  - intros H. specialize (H _ (or_intror (or_introl eq_refl))). discriminate H.
  - intros en err' [<- | [<- | [<- | [<- | []]]]]; cbn [e_error]; try discriminate.
    intros H; inversion H; subst err'.
    repeat split; auto.
    exists [mkEntry BEGIN None (tbl db);
            mkEntry (UpsertEmployee (Some si) (Some sn)) None (tbl db);
            mkEntry (UpsertAttendance (Some si) (Some sn) (Some sty) (Some sd)) (Some err) (tbl db)].
    reflexivity.
  - intros H. specialize (H _ (or_intror (or_intror (or_introl eq_refl)))). discriminate H.
  - intros en err' [<- | [<- | [<- | [<- | []]]]]; cbn [e_error]; discriminate.
  - intros _. exists i0, ids.
    exists (mkTables (upsert_employee (now e) si sn (employees (tbl db)))
              (attendance_records (tbl db))).
    exists (mkTables (upsert_employee (now e) si sn (employees (tbl db))) rows').
    repeat split; auto.
Qed.


(** ** ORDER BY sorts and keeps the rows *)

Lemma insert_by_perm {A : Type} (leb : A -> A -> bool) (x : A) (l : list A) :
  Permutation (insert_by leb x l) (x :: l).
Proof.
  induction l as [|y l IH]; simpl; [reflexivity|].
  destruct (leb x y); [reflexivity|].
  rewrite IH. apply perm_swap.
Qed.

Lemma order_by_perm {A : Type} (leb : A -> A -> bool) (l : list A) :
  Permutation (order_by leb l) l.
Proof.
  induction l as [|x l IH]; simpl; [reflexivity|].
  rewrite insert_by_perm. now constructor.
Qed.

Definition total {A : Type} (leb : A -> A -> bool) : Prop :=
  forall a b, leb a b = true \/ leb b a = true.

Lemma insert_by_sorted {A : Type} (leb : A -> A -> bool) (x : A) (l : list A) :
  total leb ->
  Sorted (fun a b => leb a b = true) l ->
  Sorted (fun a b => leb a b = true) (insert_by leb x l).
Proof.
  intros T. induction l as [|y l IH]; simpl; intros S.
  - repeat constructor.
  - destruct (leb x y) eqn:L.
    + constructor; [assumption|]. constructor; assumption.
    + inversion S as [|? ? S' Hd]; subst.
      constructor; [auto|].
      destruct l as [|z l]; simpl.
      * constructor. destruct (T x y) as [H|H]; [congruence|exact H].
      * destruct (leb x z).
        -- constructor. destruct (T x y) as [H|H]; [congruence|exact H].
        -- inversion Hd; subst. constructor; assumption.
Qed.

Lemma order_by_sorted {A : Type} (leb : A -> A -> bool) (l : list A) :
  total leb -> Sorted (fun a b => leb a b = true) (order_by leb l).
Proof.
  intros T. induction l as [|x l IH]; simpl; [constructor|].
  now apply insert_by_sorted.
Qed.

Lemma by_date_desc_total : total by_date_desc.
Proof. intros a b. unfold by_date_desc. rewrite !Z.leb_le. lia. Qed.

Lemma by_count_desc_total : total by_count_desc.
Proof. intros a b. unfold by_count_desc. rewrite !Nat.leb_le. lia. Qed.

Lemma by_date_desc_emp_total : total text_leb -> total by_date_desc_emp.
Proof.
  intros T a b. unfold by_date_desc_emp.
  destruct (Z.lt_trichotomy (date a) (date b)) as [H | [H | H]].
  - right. apply orb_true_iff. left. now apply Z.ltb_lt.
  - destruct (T (rec_emp_id a) (rec_emp_id b)) as [L | L]; [left | right];
      apply orb_true_iff; right; rewrite L, andb_true_r; apply Z.eqb_eq; lia.
  - left. apply orb_true_iff. left. now apply Z.ltb_lt.
Qed.

(** ** Statements that only read *)

Definition read_only (q : stmt) : bool :=
  match q with
  | SelectAttendance _ _ | SelectRange _ _ _
  | CountEmployees | CountAttendance | CountAttendanceOfType _ | CountByType
  | SelectEmployees | SelectByEmployee _ | SelectNow => true
  | _ => false
  end.

Lemma exec_read_only now q t seq r t' seq' :
  read_only q = true -> exec now q t seq = inr (r, t', seq') -> t' = t /\ seq' = seq.
Proof.
  destruct q; simpl; try discriminate; intros _.
  - destruct (where_tests params conds); [discriminate|]. intros H; inversion H; auto.
  - destruct p1; [|intros H; inversion H; auto].
    destruct p2; [|intros H; inversion H; auto].
    destruct p3; [|intros H; inversion H; auto].
    destruct (date_in s0); [|discriminate].
    destruct (date_in s1); [|discriminate]. intros H; inversion H; auto.
  - intros H; inversion H; auto.
  - intros H; inversion H; auto.
  - intros H; inversion H; auto.
  - intros H; inversion H; auto.
  - intros H; inversion H; auto.
  - destruct p1; intros H; inversion H; auto.
  - intros H; inversion H; auto.
Qed.

(** [keeps_store m]: whatever [m] does, the committed tables, the open
    transaction and the sequence are left as found. *)
Definition keeps_store {A : Type} (m : M A) : Prop :=
  forall e s r s', m e s = (r, s') ->
    visible s' = visible s /\ txn s' = txn s /\ seqv s' = seqv s.

Lemma keeps_ret {A : Type} (a : A) : keeps_store (ret a).
Proof. intros e s r s' H; inversion H; auto. Qed.

Lemma keeps_throw {A : Type} (err : string) : keeps_store (@throw A err).
Proof. intros e s r s' H; inversion H; auto. Qed.

Lemma keeps_bind {A B : Type} (m : M A) (k : A -> M B) :
  keeps_store m -> (forall a, keeps_store (k a)) -> keeps_store (bind m k).
Proof.
  intros Hm Hk e s r s'. unfold bind.
  destruct (m e s) as [[err|a] s1] eqn:E1; intros H.
  - inversion H; subst. eapply Hm; eauto.
  - destruct (Hm _ _ _ _ E1) as (V & T & Q).
    destruct (Hk a _ _ _ _ H) as (V' & T' & Q'). repeat split; congruence.
Qed.

Lemma keeps_try_catch {A : Type} (m : M A) (h : string -> M A) :
  keeps_store m -> (forall err, keeps_store (h err)) -> keeps_store (try_catch m h).
Proof.
  intros Hm Hh e s r s'. unfold try_catch.
  destruct (m e s) as [[err|a] s1] eqn:E1; intros H.
  - destruct (Hm _ _ _ _ E1) as (V & T & Q).
    destruct (Hh err _ _ _ _ H) as (V' & T' & Q'). repeat split; congruence.
  - inversion H; subst. eapply Hm; eauto.
Qed.

Lemma keeps_query (q : stmt) : read_only q = true -> keeps_store (query q).
Proof.
  intros RO e s r s'. unfold query.
  destruct q; try discriminate RO;
    (destruct (fault e (List.length (log s))); [intros H; inversion H; simpl; auto|];
     match goal with
     | |- context [exec ?n ?q ?t ?sq] =>
         destruct (exec n q t sq) as [err|[[r0 t'] seq']] eqn:X
     end; [intros H; inversion H; simpl; auto|];
     apply exec_read_only in X; [|reflexivity]; destruct X as [-> ->];
     unfold current; destruct (txn s) eqn:T; intros H; inversion H; simpl; auto).
Qed.

Lemma keeps_rows0_count (r : qresult) : keeps_store (rows0_count r).
Proof. destruct r; simpl; auto using keeps_ret, keeps_throw. Qed.

Lemma handle_keeps_store (h : M response) (e : env) (db : database) :
  keeps_store h -> final (handle h e db) = db.
Proof.
  intros K. unfold handle.
  destruct (h e _) as [r s] eqn:E. apply K in E. simpl in *.
  destruct E as (-> & _ & ->). apply database_eta.
Qed.

Lemma get_attendance_keeps s1 s2 ty : keeps_store (get_attendance s1 s2 ty).
Proof.
  unfold get_attendance.
  destruct (truthy s1), (truthy s2), (truthy ty);
    (apply keeps_try_catch; [apply keeps_bind; [now apply keeps_query|]|]; intros; apply keeps_ret).
Qed.

Lemma get_attendance_range_keeps i s1 s2 : keeps_store (get_attendance_range i s1 s2).
Proof.
  apply keeps_try_catch; [apply keeps_bind; [now apply keeps_query|]|]; intros; apply keeps_ret.
Qed.

Lemma get_root_keeps : keeps_store get_root.
Proof. apply keeps_ret. Qed.

Lemma get_employees_keeps : keeps_store get_employees.
Proof.
  apply keeps_try_catch; [apply keeps_bind; [now apply keeps_query|]|]; intros; apply keeps_ret.
Qed.

Lemma get_attendance_of_keeps i : keeps_store (get_attendance_of i).
Proof.
  apply keeps_try_catch; [apply keeps_bind; [now apply keeps_query|]|]; intros; apply keeps_ret.
Qed.

Lemma get_health_keeps : keeps_store get_health.
Proof.
  apply keeps_try_catch; [apply keeps_bind; [now apply keeps_query|]|]; intros; apply keeps_ret.
Qed.

Lemma get_stats_keeps : keeps_store get_stats.
Proof.
  apply keeps_try_catch; [|intros; apply keeps_ret].
  repeat first [ apply keeps_bind; [first [now apply keeps_query | apply keeps_rows0_count]|]; intros
               | apply keeps_ret ].
Qed.


(** ** The other two writers, case by case *)

Lemma post_employees_run (e : env) (db : database) (i n : jsval) (si sn : string) :
  truthy i = true -> truthy n = true ->
  prepareValue i = Some si -> prepareValue n = Some sn ->
  let r := serve e (POST_employees i n) db in
  let UE := UpsertEmployee (Some si) (Some sn) in
  let t1 := mkTables (upsert_employee (now e) si sn (employees (tbl db)))
              (attendance_records (tbl db)) in
  (exists err,
      fault e 0%nat = Some err /\
      r = mkServed (inr (mkResponse 500 (ErrorBody err))) db
            [mkEntry UE (Some err) (tbl db)] false 0)
  \/ (fault e 0%nat = None /\
      r = mkServed (inr (mkResponse 200 (EmployeeSaved "Employee saved successfully" i)))
            (mkDatabase t1 (id_seq db)) [mkEntry UE None t1] false 0).
Proof.
  intros Ti Tn Pi Pn r UE t1. destruct db as [t seq]. subst r UE t1.
  unfold serve, route, handle, post_employees.
  rewrite Ti, Tn, Pi, Pn.
  cbv [negb orb bind try_catch query ret logged current
       visible txn seqv log clients_out tbl id_seq app List.length].
  destruct (fault e 0%nat) as [err|] eqn:F.
  - left. exists err. split; reflexivity.
  - right. split; reflexivity.
Qed.

Definition without_id (k : Z) (l : list attendance) : list attendance :=
  filter (fun r => negb (id r =? k)) l.

Lemma delete_attendance_run (e : env) (db : database) (s : string) :
  let r := serve e (DELETE_attendance s) db in
  let D := DeleteAttendance (Some s) in
  (exists err,
      (fault e 0%nat = Some err
       \/ (fault e 0%nat = None /\ int4_in s = None /\ err = ERR_INTEGER)) /\
      r = mkServed (inr (mkResponse 500 (ErrorBody err))) db
            [mkEntry D (Some err) (tbl db)] false 0)
  \/ (exists k,
      fault e 0%nat = None /\ int4_in s = Some k /\
      let kept := without_id k (attendance_records (tbl db)) in
      let t1 := mkTables (employees (tbl db)) kept in
      r = mkServed
            (inr (if Z.of_nat (List.length (attendance_records (tbl db)) - List.length kept) =? 0
                  then mkResponse 404 (ErrorBody "Record not found")
                  else mkResponse 200 (MessageBody "Record deleted successfully")))
            (mkDatabase t1 (id_seq db)) [mkEntry D None t1] false 0).
Proof.
  intros r D. destruct db as [t seq]. subst r D.
  unfold serve, route, handle, delete_attendance.
  cbv [bind try_catch query ret logged current exec without_id
       visible txn seqv log clients_out tbl id_seq app List.length].
  destruct (fault e 0%nat) as [err|] eqn:F.
  - left. exists err. split; [left; reflexivity|reflexivity].
  - destruct (int4_in s) as [k|] eqn:I.
    + right. exists k. split; [reflexivity|]. split; [reflexivity|].
      cbv [rowCount].
      destruct (Z.of_nat _ =? 0); reflexivity.
    + left. exists ERR_INTEGER. split; [right; auto|reflexivity].
Qed.


(** ** The schema's constraints as an invariant *)

Definition key (r : attendance) : string * Z := (rec_emp_id r, date r).

(** Primary keys, the [UNIQUE(emp_id, date)] constraint, the foreign key,
    and the sequence running ahead of every id handed out. *)
Record wf (db : database) : Prop := mkWf {
  wf_emp_pkey : NoDup (map emp_id (employees (tbl db)));
  wf_unique : NoDup (map key (attendance_records (tbl db)));
  wf_pkey : NoDup (map id (attendance_records (tbl db)));
  wf_seq : Forall (fun r => id r < id_seq db) (attendance_records (tbl db));
  wf_fkey : Forall (fun r => In (rec_emp_id r) (map emp_id (employees (tbl db))))
              (attendance_records (tbl db))
}.

Lemma key_eqb_spec e d r : key_eqb e d r = true <-> key r = (e, d).
Proof.
  unfold key_eqb, key. rewrite andb_true_iff, String.eqb_eq, Z.eqb_eq.
  split; [intros [-> ->]; reflexivity | intros H; inversion H; auto].
Qed.

Lemma existsb_emp_id i es :
  existsb (fun e => (emp_id e =? i)%string) es = true <-> In i (map emp_id es).
Proof.
  rewrite existsb_exists, in_map_iff. split.
  - intros (x & Hx & E). apply String.eqb_eq in E. eauto.
  - intros (x & E & Hx). exists x. split; [assumption|]. now apply String.eqb_eq.
Qed.

Lemma existsb_key e d l :
  existsb (key_eqb e d) l = true <-> In (e, d) (map key l).
Proof.
  rewrite existsb_exists, in_map_iff. split.
  - intros (x & Hx & E). apply key_eqb_spec in E. eauto.
  - intros (x & E & Hx). exists x. split; [assumption|]. now apply key_eqb_spec.
Qed.

Lemma existsb_id k l :
  existsb (fun r => id r =? k) l = true <-> In k (map id l).
Proof.
  rewrite existsb_exists, in_map_iff. split.
  - intros (x & Hx & E). apply Z.eqb_eq in E. eauto.
  - intros (x & E & Hx). exists x. split; [assumption|]. now apply Z.eqb_eq.
Qed.

Lemma NoDup_snoc {A : Type} (l : list A) (x : A) :
  NoDup l -> ~ In x l -> NoDup (l ++ [x]).
Proof.
  intros N H. apply (Permutation_NoDup (l := x :: l)).
  - apply Permutation_cons_append.
  - now constructor.
Qed.

Lemma upsert_employee_ids now i n es :
  map emp_id (upsert_employee now i n es)
  = if existsb (fun e => (emp_id e =? i)%string) es
    then map emp_id es else map emp_id es ++ [i].
Proof.
  unfold upsert_employee. destruct (existsb _ es).
  - rewrite map_map. apply map_ext. intros a. now destruct (emp_id a =? i)%string.
  - now rewrite map_app.
Qed.

Lemma upsert_employee_has now i n es : In i (map emp_id (upsert_employee now i n es)).
Proof.
  rewrite upsert_employee_ids.
  destruct (existsb _ es) eqn:E.
  - now apply existsb_emp_id.
  - apply in_or_app. right. now left.
Qed.

Lemma upsert_employee_keeps now i n es x :
  In x (map emp_id es) -> In x (map emp_id (upsert_employee now i n es)).
Proof.
  rewrite upsert_employee_ids. destruct (existsb _ es); [auto|].
  intros H. apply in_or_app. now left.
Qed.

Lemma upsert_employee_NoDup now i n es :
  NoDup (map emp_id es) -> NoDup (map emp_id (upsert_employee now i n es)).
Proof.
  intros N. rewrite upsert_employee_ids.
  destruct (existsb _ es) eqn:E; [assumption|].
  apply NoDup_snoc; [assumption|].
  intros H. apply existsb_emp_id in H. congruence.
Qed.

(** The two ways the record upsert succeeds: the conflicting row is
    updated in place, or a new row is appended. *)
Definition overwrite (now : Z) (e n ty : string) (d : Z) (r : attendance) : attendance :=
  if key_eqb e d r then mkAttendance (id r) (rec_emp_id r) n ty (date r) now else r.

Lemma upsert_attendance_ok now e n ty d newid t ids rows' :
  upsert_attendance now e n ty d newid t = inr (ids, rows') ->
  (In (e, d) (map key (attendance_records t))
   /\ ids = map id (filter (key_eqb e d) (attendance_records t))
   /\ rows' = map (overwrite now e n ty d) (attendance_records t))
  \/ (~ In (e, d) (map key (attendance_records t))
      /\ In e (map emp_id (employees t))
      /\ ~ In newid (map id (attendance_records t))
      /\ ids = [newid]
      /\ rows' = attendance_records t ++ [mkAttendance newid e n ty d now]).
Proof.
  unfold upsert_attendance.
  destruct (existsb (key_eqb e d) (attendance_records t)) eqn:K.
  - intros H; inversion H; subst. left. split; [now apply existsb_key|]. auto.
  - destruct (existsb (fun x => (emp_id x =? e)%string) (employees t)) eqn:F;
      simpl; [|discriminate].
    destruct (existsb (fun r => id r =? newid) (attendance_records t)) eqn:P; [discriminate|].
    intros H; inversion H; subst. right.
    split; [intros C; apply existsb_key in C; congruence|].
    split; [now apply existsb_emp_id|].
    split; [intros C; apply existsb_id in C; congruence|]. auto.
Qed.

Lemma overwrite_key now e n ty d r : key (overwrite now e n ty d r) = key r.
Proof. unfold overwrite. now destruct (key_eqb e d r). Qed.

Lemma overwrite_id now e n ty d r : id (overwrite now e n ty d r) = id r.
Proof. unfold overwrite. now destruct (key_eqb e d r). Qed.

Lemma overwrite_emp now e n ty d r : rec_emp_id (overwrite now e n ty d r) = rec_emp_id r.
Proof. unfold overwrite. now destruct (key_eqb e d r). Qed.

Lemma map_overwrite {B : Type} (f : attendance -> B) now e n ty d l :
  (forall r, f (overwrite now e n ty d r) = f r) ->
  map f (map (overwrite now e n ty d) l) = map f l.
Proof. intros H. rewrite map_map. apply map_ext. exact H. Qed.


Lemma NoDup_map_filter {Row K : Type} (col : Row -> K) (keep : Row -> bool) :
  forall rs : list Row, NoDup (map col rs) -> NoDup (map col (filter keep rs)).
Proof.
  intros rs. induction rs as [|x rs IH]; simpl; intros N; [constructor|].
  apply NoDup_cons_iff in N. destruct N as [Fresh N].
  destruct (keep x); simpl; [|now apply IH].
  apply NoDup_cons; [|now apply IH].
  rewrite in_map_iff. intros (y & E & Hy). apply Fresh.
  rewrite in_map_iff. exists y. split; [exact E|].
  now apply filter_In in Hy.
Qed.

Lemma Forall_filter_keeps {A : Type} (P : A -> Prop) (p : A -> bool) (l : list A) :
  Forall P l -> Forall P (filter p l).
Proof.
  rewrite !Forall_forall. intros H x Hx. apply filter_In in Hx. apply H, Hx.
Qed.

Lemma wf_upsert_employee now i n db :
  wf db ->
  wf (mkDatabase (mkTables (upsert_employee now i n (employees (tbl db)))
                    (attendance_records (tbl db))) (id_seq db)).
Proof.
  intros [E U P S F]. constructor; simpl; auto.
  - now apply upsert_employee_NoDup.
  - eapply Forall_impl; [|exact F]. intros r. apply upsert_employee_keeps.
Qed.

Lemma wf_upsert_attendance now p1 p2 p3 p4 t seq r t' seq' :
  wf (mkDatabase t seq) ->
  exec now (UpsertAttendance p1 p2 p3 p4) t seq = inr (r, t', seq') ->
  wf (mkDatabase t' seq').
Proof.
  intros [E U P S F]. simpl in *. unfold exec.
  destruct p1 as [e|]; [|discriminate]; destruct p2 as [n|]; [|discriminate].
  destruct p3 as [ty|]; [|discriminate]; destruct p4 as [ds|]; [|discriminate].
  destruct (date_in ds) as [d|]; [|discriminate].
  destruct (INT4_MAX <? seq); [discriminate|].
  destruct (upsert_attendance now e n ty d seq t) as [err|[ids rows']] eqn:X; [discriminate|].
  intros H; inversion H; subst; clear H.
  apply upsert_attendance_ok in X.
  destruct X as [(K & _ & ->) | (K & Fk & Pk & _ & ->)]; constructor; simpl.
  - assumption.
  - rewrite map_overwrite; [assumption | apply overwrite_key].
  - rewrite map_overwrite; [assumption | apply overwrite_id].
  - apply Forall_map. eapply Forall_impl; [|exact S].
    intros a Ha. simpl in Ha. rewrite overwrite_id. lia.
  - apply Forall_map. eapply Forall_impl; [|exact F].
    intros a Ha. simpl in Ha. now rewrite overwrite_emp.
  - assumption.
  - rewrite map_app. now apply NoDup_snoc.
  - rewrite map_app. now apply NoDup_snoc.
  - apply Forall_app. split.
    + eapply Forall_impl; [|exact S]. intros a Ha. simpl in Ha. lia.
    + repeat constructor. simpl. lia.
  - apply Forall_app. split; [assumption|]. repeat constructor. exact Fk.
Qed.

Lemma wf_delete k db :
  wf db ->
  wf (mkDatabase (mkTables (employees (tbl db)) (without_id k (attendance_records (tbl db))))
        (id_seq db)).
Proof.
  intros [E U P S F]. unfold without_id. constructor; simpl; auto.
  - now apply NoDup_map_filter.
  - now apply NoDup_map_filter.
  - now apply Forall_filter_keeps.
  - now apply Forall_filter_keeps.
Qed.

Lemma wf_initial : wf initial_db.
Proof. constructor; simpl; constructor. Qed.

(** Every request, whatever its outcome, leaves the constraints in force. *)
Lemma serve_wf (e : env) (r : request) (db : database) :
  wf db -> wf (final (serve e r db)).
Proof.
  intros W. destruct r as [i n | i n ty d | s1 s2 ty | | s | i s1 s2 | | | i | ].
  - destruct (truthy i) eqn:Ti; [destruct (truthy n) eqn:Tn|].
    + destruct (truthy_prepareValue _ Ti) as [si Pi].
      destruct (truthy_prepareValue _ Tn) as [sn Pn].
      destruct (post_employees_run e db i n si sn Ti Tn Pi Pn) as [(err & _ & ->) | (_ & ->)];
        simpl; [assumption|]. now apply wf_upsert_employee.
    + unfold serve, route, handle, post_employees. rewrite Ti, Tn. simpl.
      now rewrite database_eta.
    + unfold serve, route, handle, post_employees. rewrite Ti. simpl.
      now rewrite database_eta.
  - destruct (negb (truthy i) || negb (truthy n) || negb (truthy ty) || negb (truthy d)) eqn:V.
    + unfold serve, route, handle, post_attendance. rewrite V. simpl.
      now rewrite database_eta.
    + rewrite !orb_false_iff, !negb_false_iff in V. destruct V as [[[Ti Tn] Tty] Td].
      destruct (truthy_prepareValue _ Ti) as [si Pi].
      destruct (truthy_prepareValue _ Tn) as [sn Pn].
      destruct (truthy_prepareValue _ Tty) as [sty Pty].
      destruct (truthy_prepareValue _ Td) as [sd Pd].
      destruct (post_attendance_run e db i n ty d si sn sty sd Ti Tn Tty Td Pi Pn Pty Pd)
        as [(err & _ & ->) | [(err & _ & _ & ->) | (i0 & ids & rows' & _ & _ & X & ->)]];
        simpl; try assumption.
      eapply wf_upsert_attendance; [|exact X].
      now apply wf_upsert_employee.
  - unfold serve, route. rewrite handle_keeps_store; [assumption|apply get_attendance_keeps].
  - unfold serve, route. rewrite handle_keeps_store; [assumption|apply get_stats_keeps].
  - destruct (delete_attendance_run e db s) as [(err & _ & ->) | (k & _ & _ & ->)];
      simpl; [assumption|]. now apply wf_delete.
  - unfold serve, route. rewrite handle_keeps_store; [assumption|apply get_attendance_range_keeps].
  - unfold serve, route. rewrite handle_keeps_store; [assumption|apply get_root_keeps].
  - unfold serve, route. rewrite handle_keeps_store; [assumption|apply get_employees_keeps].
  - unfold serve, route. rewrite handle_keeps_store; [assumption|apply get_attendance_of_keeps].
  - unfold serve, route. rewrite handle_keeps_store; [assumption|apply get_health_keeps].
Qed.

Lemma reachable_wf (db : database) : reachable db -> wf db.
Proof.
  induction 1 as [|db e r _ IH]; [apply wf_initial | now apply serve_wf].
Qed.


(** ** Upserting the same (employee, date) again *)

Lemma filter_none {A : Type} (p : A -> bool) (l : list A) :
  (forall x, In x l -> p x = false) -> filter p l = [].
Proof.
  induction l as [|a l IH]; simpl; intros H; [reflexivity|].
  rewrite (H a (or_introl eq_refl)). apply IH. intros x Hx. apply H. now right.
Qed.

Lemma filter_all {A : Type} (p : A -> bool) (l : list A) :
  (forall x, In x l -> p x = true) -> filter p l = l.
Proof.
  induction l as [|a l IH]; simpl; intros H; [reflexivity|].
  rewrite (H a (or_introl eq_refl)). f_equal. apply IH. intros x Hx. apply H. now right.
Qed.

Lemma filter_key_absent e d l :
  ~ In (e, d) (map key l) -> filter (key_eqb e d) l = [].
Proof.
  intros H. apply filter_none. intros x Hx.
  destruct (key_eqb e d x) eqn:K; [|reflexivity].
  exfalso. apply H. apply key_eqb_spec in K. rewrite <- K. now apply in_map.
Qed.

Lemma filter_key_unique e d l :
  NoDup (map key l) -> filter (key_eqb e d) l = [] \/ exists x, filter (key_eqb e d) l = [x].
Proof.
  induction l as [|a l IH]; simpl; intros N; [now left|].
  inversion N as [|? ? Hn N']; subst.
  destruct (key_eqb e d a) eqn:K; [|auto].
  right. exists a. f_equal. apply filter_key_absent.
  apply key_eqb_spec in K. now rewrite <- K.
Qed.

Lemma filter_map_overwrite now e n ty d (p : attendance -> bool) l :
  (forall r, p (overwrite now e n ty d r) = p r) ->
  filter p (map (overwrite now e n ty d) l) = map (overwrite now e n ty d) (filter p l).
Proof.
  intros H. induction l as [|a l IH]; simpl; [reflexivity|].
  rewrite H. destruct (p a); simpl; now rewrite IH.
Qed.

Lemma key_eqb_overwrite now e n ty d e' d' r :
  key_eqb e' d' (overwrite now e n ty d r) = key_eqb e' d' r.
Proof. unfold overwrite. destruct (key_eqb e d r); reflexivity. Qed.

Lemma overwrite_others now e n ty d l :
  map (overwrite now e n ty d) (filter (fun r => negb (key_eqb e d r)) l)
  = filter (fun r => negb (key_eqb e d r)) l.
Proof.
  induction l as [|a l IH]; simpl; [reflexivity|].
  destruct (key_eqb e d a) eqn:Ka; simpl; [exact IH|].
  unfold overwrite at 1. rewrite Ka. now rewrite IH.
Qed.

(** After a successful record upsert, the rows under its key carry
    exactly the ids it returned. *)
Lemma upsert_attendance_ids now e n ty d newid t ids rows' :
  upsert_attendance now e n ty d newid t = inr (ids, rows') ->
  map id (filter (key_eqb e d) rows') = ids.
Proof.
  intros X. apply upsert_attendance_ok in X.
  destruct X as [(K & -> & ->) | (K & _ & _ & -> & ->)].
  - rewrite filter_map_overwrite by (intros; apply key_eqb_overwrite).
    apply map_overwrite, overwrite_id.
  - rewrite filter_app, (filter_key_absent _ _ _ K). simpl.
    unfold key_eqb; simpl. now rewrite String.eqb_refl, Z.eqb_refl.
Qed.

Lemma upsert_attendance_conflict now e n ty d newid t :
  filter (key_eqb e d) (attendance_records t) <> [] ->
  upsert_attendance now e n ty d newid t
  = inr (map id (filter (key_eqb e d) (attendance_records t)),
         map (overwrite now e n ty d) (attendance_records t)).
Proof.
  intros H. unfold upsert_attendance.
  destruct (existsb (key_eqb e d) (attendance_records t)) eqn:K; [reflexivity|].
  exfalso. apply H. apply filter_none. intros x Hx.
  destruct (key_eqb e d x) eqn:Kx; [|reflexivity].
  assert (existsb (key_eqb e d) (attendance_records t) = true)
    by (apply existsb_exists; eauto).
  congruence.
Qed.

(** A 200 from [POST /attendance] tells how the request ran. *)
Lemma post_attendance_200 (e : env) (db : database) (i n ty d : jsval) (m : string) (i1 : Z) :
  outcome (serve e (POST_attendance i n ty d) db)
    = inr (mkResponse 200 (AttendanceAdded m i1)) ->
  exists si sn sty sd dd ids rows',
    prepareValue i = Some si /\ prepareValue n = Some sn /\
    prepareValue ty = Some sty /\ prepareValue d = Some sd /\
    truthy i = true /\ truthy n = true /\ truthy ty = true /\ truthy d = true /\
    date_in sd = Some dd /\ id_seq db <= INT4_MAX /\
    upsert_attendance (now e) si sn sty dd (id_seq db)
      (mkTables (upsert_employee (now e) si sn (employees (tbl db)))
         (attendance_records (tbl db)))
      = inr (i1 :: ids, rows') /\
    final (serve e (POST_attendance i n ty d) db)
      = mkDatabase (mkTables (upsert_employee (now e) si sn (employees (tbl db))) rows')
          (id_seq db + 1) /\
    map e_stmt (statements (serve e (POST_attendance i n ty d) db))
      = [BEGIN; UpsertEmployee (Some si) (Some sn);
         UpsertAttendance (Some si) (Some sn) (Some sty) (Some sd); COMMIT].
Proof.
  intros O.
  destruct (negb (truthy i) || negb (truthy n) || negb (truthy ty) || negb (truthy d)) eqn:V.
  { unfold serve, route, handle, post_attendance in O. rewrite V in O. discriminate O. }
  rewrite !orb_false_iff, !negb_false_iff in V. destruct V as [[[Ti Tn] Tty] Td].
  destruct (truthy_prepareValue _ Ti) as [si Pi].
  destruct (truthy_prepareValue _ Tn) as [sn Pn].
  destruct (truthy_prepareValue _ Tty) as [sty Pty].
  destruct (truthy_prepareValue _ Td) as [sd Pd].
  destruct (post_attendance_run e db i n ty d si sn sty sd Ti Tn Tty Td Pi Pn Pty Pd)
    as [(err & _ & R) | [(err & _ & _ & R) | (i0 & ids & rows' & _ & _ & X & R)]];
    rewrite R in O |- *; simpl in O; try discriminate O.
  inversion O; subst i0.
  unfold exec in X.
  destruct (date_in sd) as [dd|] eqn:D; [|discriminate].
  destruct (INT4_MAX <? id_seq db) eqn:L; [discriminate|].
  destruct (upsert_attendance _ _ _ _ _ _ _) as [err|[ids0 rows0]] eqn:U; [discriminate|].
  inversion X; subst.
  exists si, sn, sty, sd, dd, ids, rows'.
  apply Z.ltb_ge in L. repeat split; auto.
Qed.


Lemma post_attendance_conflict (e : env) (db : database) (i n ty d : jsval)
      (si sn sty sd : string) (dd : Z) (x : attendance) (l : list attendance) :
  truthy i = true -> truthy n = true -> truthy ty = true -> truthy d = true ->
  prepareValue i = Some si -> prepareValue n = Some sn ->
  prepareValue ty = Some sty -> prepareValue d = Some sd ->
  date_in sd = Some dd ->
  fault e 1%nat = None -> fault e 2%nat = None -> id_seq db <= INT4_MAX ->
  filter (key_eqb si dd) (attendance_records (tbl db)) = x :: l ->
  let r := serve e (POST_attendance i n ty d) db in
  outcome r = inr (mkResponse 200 (AttendanceAdded "Attendance record added successfully" (id x)))
  /\ final r = mkDatabase
                 (mkTables (upsert_employee (now e) si sn (employees (tbl db)))
                    (map (overwrite (now e) si sn sty dd) (attendance_records (tbl db))))
                 (id_seq db + 1).
Proof.
  intros Ti Tn Tty Td Pi Pn Pty Pd D F1 F2 L K r. subst r.
  assert (X : exec (now e) (UpsertAttendance (Some si) (Some sn) (Some sty) (Some sd))
                (mkTables (upsert_employee (now e) si sn (employees (tbl db)))
                   (attendance_records (tbl db))) (id_seq db)
              = inr (Returning (id x :: map id l),
                     mkTables (upsert_employee (now e) si sn (employees (tbl db)))
                       (map (overwrite (now e) si sn sty dd) (attendance_records (tbl db))),
                     id_seq db + 1)).
  { unfold exec. rewrite D.
    destruct (INT4_MAX <? id_seq db) eqn:B; [apply Z.ltb_lt in B; lia|].
    rewrite upsert_attendance_conflict; simpl; rewrite K; [reflexivity|discriminate]. }
  destruct (post_attendance_run e db i n ty d si sn sty sd Ti Tn Tty Td Pi Pn Pty Pd)
    as [(err & G & _) | [(err & _ & [G | [_ G]] & _) | (i0 & ids & rows' & _ & _ & Y & R)]];
    try congruence.
  rewrite X in Y. inversion Y; subst. rewrite R. simpl. auto.
Qed.

(** C2: in every reachable state there is at most one attendance record
    per (employee, date); and a second upsert for the employee and date
    of a first, successful one adds no row, leaves exactly one row under
    that key, now carrying the second request's name, type and clock, and
    returns the id the first upsert returned. *)
Theorem one_record_per_employee_and_date :
  (forall db, reachable db -> NoDup (map key (attendance_records (tbl db))))
  /\
  (forall db e1 e2 i d n1 ty1 n2 ty2 m i1,
      reachable db ->
      let r1 := serve e1 (POST_attendance i n1 ty1 d) db in
      outcome r1 = inr (mkResponse 200 (AttendanceAdded m i1)) ->
      truthy n2 = true -> truthy ty2 = true ->
      fault e2 1%nat = None -> fault e2 2%nat = None -> id_seq (final r1) <= INT4_MAX ->
      let r2 := serve e2 (POST_attendance i n2 ty2 d) (final r1) in
      exists si sd dd sn2 sty2,
        prepareValue i = Some si /\ prepareValue d = Some sd /\ date_in sd = Some dd /\
        prepareValue n2 = Some sn2 /\ prepareValue ty2 = Some sty2 /\
        outcome r2
          = inr (mkResponse 200 (AttendanceAdded "Attendance record added successfully" i1))
        /\ List.length (attendance_records (tbl (final r2)))
           = List.length (attendance_records (tbl (final r1)))
        /\ filter (key_eqb si dd) (attendance_records (tbl (final r2)))
           = [mkAttendance i1 si sn2 sty2 dd (now e2)]
        /\ filter (fun r => negb (key_eqb si dd r)) (attendance_records (tbl (final r2)))
           = filter (fun r => negb (key_eqb si dd r)) (attendance_records (tbl (final r1)))).
Proof.
  split.
  - intros db R. apply reachable_wf in R. apply R.
  - intros db e1 e2 i d n1 ty1 n2 ty2 m i1 R r1 O1 Tn2 Tty2 F1 F2 L r2.
    assert (W1 : wf (final r1)) by (apply serve_wf, reachable_wf, R).
    destruct (post_attendance_200 _ _ _ _ _ _ _ _ O1)
      as (si & sn & sty & sd & dd & ids & rows' & Pi & Pn & Pty & Pd & Ti & Tn & Tty & Td
          & D & _ & U & Fin & _).
    fold r1 in Fin.
    destruct (truthy_prepareValue _ Tn2) as [sn2 Pn2].
    destruct (truthy_prepareValue _ Tty2) as [sty2 Pty2].
    pose proof (upsert_attendance_ids _ _ _ _ _ _ _ _ _ U) as I.
    assert (K : exists x, filter (key_eqb si dd) rows' = [x] /\ id x = i1).
    { destruct (filter_key_unique si dd rows') as [E | [x E]].
      - pose proof (wf_unique _ W1) as N. now rewrite Fin in N.
      - rewrite E in I. discriminate I.
      - rewrite E in I. simpl in I. inversion I. eauto. }
    destruct K as (x & K & Ix).
    assert (Kx : key_eqb si dd x = true).
    { assert (In x (filter (key_eqb si dd) rows')) by (rewrite K; now left).
      apply filter_In in H. apply H. }
    assert (K1 : filter (key_eqb si dd) (attendance_records (tbl (final r1))) = [x])
      by (rewrite Fin; exact K).
    destruct (post_attendance_conflict e2 (final r1) i n2 ty2 d si sn2 sty2 sd dd x []
                Ti Tn2 Tty2 Td Pi Pn2 Pty2 Pd D F1 F2 L K1) as [O2 Fin2].
    fold r2 in O2, Fin2.
    exists si, sd, dd, sn2, sty2. rewrite O2, Fin2, Ix. simpl.
    repeat split; auto.
    + apply length_map.
    + rewrite filter_map_overwrite by (intros; apply key_eqb_overwrite).
      rewrite K1. simpl. unfold overwrite. rewrite Kx.
      apply key_eqb_spec in Kx. unfold key in Kx. inversion Kx. now subst.
    + rewrite filter_map_overwrite by (intros; now rewrite key_eqb_overwrite).
      apply overwrite_others.
Qed.


(** ** What a successful attendance upsert touches *)

Lemma upsert_employee_new now i n es :
  ~ In i (map emp_id es) -> upsert_employee now i n es = es ++ [mkEmployee i n now now].
Proof.
  intros H. unfold upsert_employee.
  destruct (existsb _ es) eqn:E; [|reflexivity].
  apply existsb_emp_id in E. contradiction.
Qed.

Lemma upsert_employee_others now i n es :
  filter (fun x => negb (emp_id x =? i)%string) (upsert_employee now i n es)
  = filter (fun x => negb (emp_id x =? i)%string) es.
Proof.
  unfold upsert_employee. destruct (existsb _ es).
  - induction es as [|a es IH]; simpl; [reflexivity|].
    destruct (emp_id a =? i)%string eqn:E; simpl; rewrite E; simpl; now rewrite IH.
  - rewrite filter_app. simpl. rewrite String.eqb_refl. simpl. apply app_nil_r.
Qed.

Lemma upsert_attendance_others now e n ty d newid t ids rows' :
  upsert_attendance now e n ty d newid t = inr (ids, rows') ->
  filter (fun r => negb (key_eqb e d r)) rows'
  = filter (fun r => negb (key_eqb e d r)) (attendance_records t).
Proof.
  intros X. apply upsert_attendance_ok in X.
  destruct X as [(_ & _ & ->) | (_ & _ & _ & _ & ->)].
  - rewrite filter_map_overwrite by (intros; now rewrite key_eqb_overwrite).
    apply overwrite_others.
  - rewrite filter_app. simpl. unfold key_eqb at 2. simpl.
    rewrite String.eqb_refl, Z.eqb_refl. simpl. apply app_nil_r.
Qed.

Lemma filter_emp_unique i (es : list employee) :
  NoDup (map emp_id es) -> In i (map emp_id es) ->
  exists x, filter (fun y => (emp_id y =? i)%string) es = [x] /\ emp_id x = i.
Proof.
  induction es as [|a es IH]; simpl; intros N H; [contradiction|].
  inversion N as [|? ? Hn N']; subst.
  destruct (emp_id a =? i)%string eqn:E.
  - apply String.eqb_eq in E. exists a. split; [|assumption]. f_equal.
    apply filter_none. intros y Hy.
    destruct (emp_id y =? i)%string eqn:Ey; [|reflexivity].
    exfalso. apply Hn. apply String.eqb_eq in Ey. rewrite E, <- Ey. now apply in_map.
  - destruct H as [H | H]; [apply String.eqb_neq in E; contradiction|].
    now apply IH.
Qed.

(** A validated write whose date the engine accepts, met by no engine
    fault and with the sequence not exhausted, goes through on any state
    that satisfies the constraints: after the employee upsert the foreign
    key cannot fail, and the sequence runs ahead of every stored id. *)
Lemma post_attendance_succeeds (e : env) (db : database) (i n ty d : jsval)
      (si sn sty sd : string) (dd : Z) :
  wf db ->
  truthy i = true -> truthy n = true -> truthy ty = true -> truthy d = true ->
  prepareValue i = Some si -> prepareValue n = Some sn ->
  prepareValue ty = Some sty -> prepareValue d = Some sd ->
  date_in sd = Some dd ->
  fault e 1%nat = None -> fault e 2%nat = None -> id_seq db <= INT4_MAX ->
  exists i1 ids rows',
    upsert_attendance (now e) si sn sty dd (id_seq db)
      (mkTables (upsert_employee (now e) si sn (employees (tbl db)))
         (attendance_records (tbl db)))
    = inr (i1 :: ids, rows')
    /\ serve e (POST_attendance i n ty d) db
       = mkServed
           (inr (mkResponse 200 (AttendanceAdded "Attendance record added successfully" i1)))
           (mkDatabase (mkTables (upsert_employee (now e) si sn (employees (tbl db))) rows')
              (id_seq db + 1))
           [mkEntry BEGIN None (tbl db);
            mkEntry (UpsertEmployee (Some si) (Some sn)) None (tbl db);
            mkEntry (UpsertAttendance (Some si) (Some sn) (Some sty) (Some sd)) None (tbl db);
            mkEntry COMMIT None
              (mkTables (upsert_employee (now e) si sn (employees (tbl db))) rows')]
           false 0.
Proof.
  intros W Ti Tn Tty Td Pi Pn Pty Pd D F1 F2 L.
  destruct (post_attendance_run e db i n ty d si sn sty sd Ti Tn Tty Td Pi Pn Pty Pd)
    as [(err & G & _) | [(err & _ & [G | [_ X]] & _) | (i0 & ids & rows' & _ & _ & X & R)]];
    try congruence.
  - exfalso. revert X. unfold exec. rewrite D.
    destruct (INT4_MAX <? id_seq db) eqn:B; [apply Z.ltb_lt in B; lia|].
    unfold upsert_attendance. cbn [attendance_records employees].
    destruct (existsb (key_eqb si dd) (attendance_records (tbl db))); [discriminate|].
    destruct (existsb (fun x => (emp_id x =? si)%string)
                (upsert_employee (now e) si sn (employees (tbl db)))) eqn:Fk.
    + cbn [negb].
      destruct (existsb (fun r => id r =? id_seq db) (attendance_records (tbl db))) eqn:Pk;
        [|discriminate].
      apply existsb_id, in_map_iff in Pk. destruct Pk as (x & Ix & Hx).
      pose proof (wf_seq _ W) as S. rewrite Forall_forall in S.
      specialize (S x Hx). lia.
    + assert (Has : existsb (fun x => (emp_id x =? si)%string)
                      (upsert_employee (now e) si sn (employees (tbl db))) = true)
        by (apply existsb_emp_id, upsert_employee_has).
      congruence.
  - exists i0, ids, rows'. split; [|exact R].
    revert X. unfold exec. rewrite D.
    destruct (INT4_MAX <? id_seq db); [discriminate|].
    destruct (upsert_attendance _ _ _ _ _ _ _) as [err|[ids0 rows0]]; [discriminate|].
    intros X. inversion X; subst. reflexivity.
Qed.

(** C3, in two parts.  First, any successful attendance upsert sends the
    employee upsert before the record upsert and leaves every attendance
    record, the one just written included, referring to an existing
    employee.  Second, a validated write for an employee id the employees
    table does not hold, with a date the engine accepts, no engine fault
    and the sequence not exhausted, is answered 200: the employees table
    gains exactly that employee with the supplied name, the record is
    appended under the next id, and it is the employee upsert that lets
    the record in, since on the tables as found the record upsert is
    rejected by the foreign key. *)
Theorem attendance_upsert_creates_the_employee :
  (forall (db : database) (e : env) (i n ty d : jsval) (m : string) (i1 : Z),
      reachable db ->
      let r := serve e (POST_attendance i n ty d) db in
      outcome r = inr (mkResponse 200 (AttendanceAdded m i1)) ->
      exists si sn sty sd,
        prepareValue i = Some si /\ prepareValue n = Some sn /\
        prepareValue ty = Some sty /\ prepareValue d = Some sd /\
        map e_stmt (statements r)
          = [BEGIN; UpsertEmployee (Some si) (Some sn);
             UpsertAttendance (Some si) (Some sn) (Some sty) (Some sd); COMMIT] /\
        (~ In si (map emp_id (employees (tbl db))) ->
         employees (tbl (final r))
           = employees (tbl db) ++ [mkEmployee si sn (now e) (now e)]) /\
        (exists a, In a (attendance_records (tbl (final r))) /\ id a = i1 /\ rec_emp_id a = si) /\
        Forall (fun a => In (rec_emp_id a) (map emp_id (employees (tbl (final r)))))
          (attendance_records (tbl (final r))))
  /\
  (forall (db : database) (e : env) (i n ty d : jsval) (si sn sty sd : string) (dd : Z),
      reachable db ->
      truthy i = true -> truthy n = true -> truthy ty = true -> truthy d = true ->
      prepareValue i = Some si -> prepareValue n = Some sn ->
      prepareValue ty = Some sty -> prepareValue d = Some sd ->
      date_in sd = Some dd ->
      fault e 1%nat = None -> fault e 2%nat = None -> id_seq db <= INT4_MAX ->
      ~ In si (map emp_id (employees (tbl db))) ->
      let r := serve e (POST_attendance i n ty d) db in
      let UA := UpsertAttendance (Some si) (Some sn) (Some sty) (Some sd) in
      let created := employees (tbl db) ++ [mkEmployee si sn (now e) (now e)] in
      let written := attendance_records (tbl db)
                     ++ [mkAttendance (id_seq db) si sn sty dd (now e)] in
      outcome r
        = inr (mkResponse 200 (AttendanceAdded "Attendance record added successfully" (id_seq db)))
      /\ map e_stmt (statements r) = [BEGIN; UpsertEmployee (Some si) (Some sn); UA; COMMIT]
      /\ final r = mkDatabase (mkTables created written) (id_seq db + 1)
      /\ exec (now e) UA (tbl db) (id_seq db) = inl ERR_FKEY
      /\ exec (now e) UA (mkTables created (attendance_records (tbl db))) (id_seq db)
         = inr (Returning [id_seq db], mkTables created written, id_seq db + 1)
      /\ Forall (fun a => In (rec_emp_id a) (map emp_id created)) written).
Proof.
  split.
  - intros db e i n ty d m i1 R r O.
    pose proof (wf_fkey _ (serve_wf e (POST_attendance i n ty d) db (reachable_wf _ R))) as FK.
    fold r in FK.
    destruct (post_attendance_200 _ _ _ _ _ _ _ _ O)
      as (si & sn & sty & sd & dd & ids & rows' & Pi & Pn & Pty & Pd & _ & _ & _ & _
          & D & _ & U & Fin & St).
    fold r in Fin, St.
    exists si, sn, sty, sd. repeat split; auto.
    + intros H. rewrite Fin. simpl. now apply upsert_employee_new.
    + pose proof (upsert_attendance_ids _ _ _ _ _ _ _ _ _ U) as I.
      destruct (filter (key_eqb si dd) rows') as [|a l] eqn:K; [discriminate I|].
      assert (Ha : In a (filter (key_eqb si dd) rows')) by (rewrite K; now left).
      apply filter_In in Ha. destruct Ha as [Ha Ka].
      exists a. rewrite Fin. simpl. split; [assumption|].
      split; [now inversion I|].
      apply key_eqb_spec in Ka. now inversion Ka.
  - intros db e i n ty d si sn sty sd dd R Ti Tn Tty Td Pi Pn Pty Pd D F1 F2 L New r UA
           created written.
    pose proof (reachable_wf _ R) as W.
    assert (NoKey : existsb (key_eqb si dd) (attendance_records (tbl db)) = false).
    { destruct (existsb (key_eqb si dd) (attendance_records (tbl db))) eqn:K; [|reflexivity].
      exfalso. apply existsb_exists in K. destruct K as (x & Hx & Kx).
      apply key_eqb_spec in Kx. inversion Kx as [[Ex Dx]].
      pose proof (wf_fkey _ W) as FK. rewrite Forall_forall in FK.
      apply New. rewrite <- Ex. now apply FK. }
    assert (NoEmp : existsb (fun x => (emp_id x =? si)%string) (employees (tbl db)) = false).
    { destruct (existsb (fun x => (emp_id x =? si)%string) (employees (tbl db))) eqn:E;
        [|reflexivity].
      apply existsb_emp_id in E. contradiction. }
    assert (NoId : existsb (fun a => id a =? id_seq db) (attendance_records (tbl db)) = false).
    { destruct (existsb (fun a => id a =? id_seq db) (attendance_records (tbl db))) eqn:P;
        [|reflexivity].
      apply existsb_id, in_map_iff in P. destruct P as (x & Ix & Hx).
      pose proof (wf_seq _ W) as S. rewrite Forall_forall in S.
      specialize (S x Hx). lia. }
    assert (B : (INT4_MAX <? id_seq db) = false) by (apply Z.ltb_ge; exact L).
    assert (Up : upsert_employee (now e) si sn (employees (tbl db)) = created)
      by (now apply upsert_employee_new).
    assert (Has : existsb (fun x => (emp_id x =? si)%string) created = true).
    { rewrite <- Up. apply existsb_emp_id, upsert_employee_has. }
    assert (X : upsert_attendance (now e) si sn sty dd (id_seq db)
                  (mkTables created (attendance_records (tbl db)))
                = inr ([id_seq db], written)).
    { unfold upsert_attendance. cbn [attendance_records employees].
      rewrite NoKey, Has, NoId. reflexivity. }
    destruct (post_attendance_succeeds e db i n ty d si sn sty sd dd
                W Ti Tn Tty Td Pi Pn Pty Pd D F1 F2 L) as (i1 & ids & rows' & U & S).
    rewrite Up, X in U. inversion U; subst i1 ids rows'.
    fold r in S. rewrite S, Up. cbn [outcome statements final map e_stmt].
    split; [reflexivity|]. split; [reflexivity|]. split; [reflexivity|].
    split; [|split].
    + unfold UA, exec. rewrite D, B. unfold upsert_attendance.
      rewrite NoKey, NoEmp. reflexivity.
    + unfold UA, exec. rewrite D, B, X. reflexivity.
    + pose proof (wf_fkey _ (serve_wf e (POST_attendance i n ty d) db W)) as FK.
      fold r in FK. rewrite S, Up in FK. exact FK.
Qed.

(** C10: a successful attendance upsert for (employee, date) leaves every
    employee row with another id and every attendance record with another
    (employee, date) key exactly as it was, adds no such rows, and among
    the rows it may touch there is one employee row and one attendance
    record. *)
Theorem attendance_upsert_frame
        (db : database) (e : env) (i n ty d : jsval) (m : string) (i1 : Z) :
  reachable db ->
  let r := serve e (POST_attendance i n ty d) db in
  outcome r = inr (mkResponse 200 (AttendanceAdded m i1)) ->
  exists si sd dd,
    prepareValue i = Some si /\ prepareValue d = Some sd /\ date_in sd = Some dd /\
    filter (fun x => negb (emp_id x =? si)%string) (employees (tbl (final r)))
    = filter (fun x => negb (emp_id x =? si)%string) (employees (tbl db)) /\
    filter (fun a => negb (key_eqb si dd a)) (attendance_records (tbl (final r)))
    = filter (fun a => negb (key_eqb si dd a)) (attendance_records (tbl db)) /\
    (exists x, filter (fun y => (emp_id y =? si)%string) (employees (tbl (final r))) = [x]) /\
    (exists a, filter (key_eqb si dd) (attendance_records (tbl (final r))) = [a]).
Proof.
  intros R r O.
  pose proof (serve_wf e (POST_attendance i n ty d) db (reachable_wf _ R)) as W.
  fold r in W.
  destruct (post_attendance_200 _ _ _ _ _ _ _ _ O)
    as (si & sn & sty & sd & dd & ids & rows' & Pi & Pn & Pty & Pd & _ & _ & _ & _
        & D & _ & U & Fin & _).
  fold r in Fin.
  destruct W as [WE WU _ _ _]. rewrite Fin in WE, WU |- *. simpl in *.
  exists si, sd, dd. repeat split; auto.
  - apply upsert_employee_others.
  - now rewrite (upsert_attendance_others _ _ _ _ _ _ _ _ _ U).
  - destruct (filter_emp_unique si _ WE (upsert_employee_has _ _ _ _)) as (x & Hx & _). eauto.
  - pose proof (upsert_attendance_ids _ _ _ _ _ _ _ _ _ U) as I.
    destruct (filter_key_unique si dd rows' WU) as [E | [a E]]; [|eauto].
    rewrite E in I. discriminate I.
Qed.


(** ** Upserting an employee twice *)

(** The row of employee [i] with [updated_at] moved to [t]; other rows as
    they are. *)
Definition touch (i : string) (t : Z) (x : employee) : employee :=
  if (emp_id x =? i)%string then mkEmployee (emp_id x) (name x) (created_at x) t else x.

Lemma upsert_employee_row now i n es x :
  In x (upsert_employee now i n es) -> emp_id x = i -> name x = n /\ updated_at x = now.
Proof.
  unfold upsert_employee. destruct (existsb _ es) eqn:E.
  - intros H Hi. apply in_map_iff in H. destruct H as (y & <- & _).
    destruct (emp_id y =? i)%string eqn:Ey; simpl; [auto|].
    apply String.eqb_neq in Ey. contradiction.
  - intros H Hi. apply in_app_or in H. destruct H as [H | [<- | []]]; [|auto].
    exfalso. assert (existsb (fun e => (emp_id e =? i)%string) es = true); [|congruence].
    apply existsb_emp_id. rewrite <- Hi. now apply in_map.
Qed.

Lemma upsert_employee_again t1 t2 i n n2 es :
  upsert_employee t2 i n2 (upsert_employee t1 i n es)
  = map (fun x => if (emp_id x =? i)%string
                  then mkEmployee (emp_id x) n2 (created_at x) t2 else x)
      (upsert_employee t1 i n es).
Proof.
  unfold upsert_employee at 1.
  pose proof (upsert_employee_has t1 i n es) as H. apply existsb_emp_id in H.
  now rewrite H.
Qed.

(** C4 (amended): two employee upserts with the same id and name leave the
    employees table that one leaves, except that the employee's
    [updated_at] is the clock of the second call (so the tables coincide
    when the clock did not move); the other table and the sequence are
    untouched by the second call.  And after two upserts of one id with
    any two names there is exactly one row for that id, with the later
    name. *)
Theorem employee_upsert_twice
        (db : database) (e1 e2 : env) (i n n2 : jsval) :
  truthy i = true -> truthy n = true -> truthy n2 = true ->
  fault e1 0%nat = None -> fault e2 0%nat = None ->
  let once := final (serve e1 (POST_employees i n) db) in
  let twice := final (serve e2 (POST_employees i n) once) in
  let renamed := final (serve e2 (POST_employees i n2) once) in
  exists si sn2,
    prepareValue i = Some si /\ prepareValue n2 = Some sn2 /\
    employees (tbl twice) = map (touch si (now e2)) (employees (tbl once)) /\
    attendance_records (tbl twice) = attendance_records (tbl once) /\
    id_seq twice = id_seq once /\
    (now e2 = now e1 -> twice = once) /\
    (reachable db ->
     exists c, filter (fun x => (emp_id x =? si)%string) (employees (tbl renamed))
               = [mkEmployee si sn2 c (now e2)]).
Proof.
  intros Ti Tn Tn2 F1 F2 once twice renamed.
  destruct (truthy_prepareValue _ Ti) as [si Pi].
  destruct (truthy_prepareValue _ Tn) as [sn Pn].
  destruct (truthy_prepareValue _ Tn2) as [sn2 Pn2].
  destruct (post_employees_run e1 db i n si sn Ti Tn Pi Pn) as [(err & C & _) | (_ & R1)];
    [congruence|].
  destruct (post_employees_run e2 once i n si sn Ti Tn Pi Pn) as [(err & C & _) | (_ & R2)];
    [congruence|].
  destruct (post_employees_run e2 once i n2 si sn2 Ti Tn2 Pi Pn2) as [(err & C & _) | (_ & R3)];
    [congruence|].
  assert (T : employees (tbl twice) = map (touch si (now e2)) (employees (tbl once))).
  { subst twice. rewrite R2. simpl. subst once. rewrite R1. simpl.
    rewrite upsert_employee_again. apply map_ext_in. intros x Hx. unfold touch.
    destruct (emp_id x =? si)%string eqn:E; [|reflexivity].
    apply String.eqb_eq in E.
    destruct (upsert_employee_row _ _ _ _ _ Hx E) as [-> _]. reflexivity. }
  exists si, sn2. repeat split; auto.
  - subst twice. now rewrite R2.
  - subst twice. now rewrite R2.
  - intros Hnow.
    assert (employees (tbl twice) = employees (tbl once)).
    { rewrite T. rewrite <- (map_id (employees (tbl once))) at 2.
      apply map_ext_in. intros x Hx. unfold touch.
      destruct (emp_id x =? si)%string eqn:E; [|reflexivity].
      apply String.eqb_eq in E. subst once. rewrite R1 in Hx. simpl in Hx.
      destruct (upsert_employee_row _ _ _ _ _ Hx E) as [_ U].
      destruct x; simpl in *. now rewrite Hnow, U. }
    revert H. subst twice. rewrite R2. simpl. intros ->.
    destruct once as [[es at0] sq]; reflexivity.
  - intros R.
    assert (W : wf once) by (apply serve_wf, reachable_wf, R).
    subst renamed. rewrite R3. simpl.
    destruct W as [WE _ _ _ _]. subst once. rewrite R1 in WE |- *. simpl in *.
    rewrite upsert_employee_again.
    destruct (filter_emp_unique si _ WE (upsert_employee_has _ _ _ _)) as (x & Hx & Ex).
    exists (created_at x).
    set (up := fun x0 : employee => if (emp_id x0 =? si)%string
                                    then mkEmployee (emp_id x0) sn2 (created_at x0) (now e2)
                                    else x0).
    assert (G : forall l, filter (fun y => (emp_id y =? si)%string) (map up l)
                          = map up (filter (fun y => (emp_id y =? si)%string) l)).
    { induction l as [|a l IH]; simpl; [reflexivity|].
      unfold up at 1. destruct (emp_id a =? si)%string eqn:E; simpl; rewrite E; simpl;
        now rewrite IH. }
    rewrite G, Hx. simpl. unfold up. rewrite Ex, String.eqb_refl. reflexivity.
Qed.


(** ** Deleting by id *)

Lemma filter_drops {A : Type} (p : A -> bool) (l : list A) (x : A) :
  In x l -> p x = false -> (List.length (filter p l) < List.length l)%nat.
Proof.
  induction l as [|a l IH]; simpl; intros H Px; [contradiction|].
  destruct H as [-> | H].
  - rewrite Px. pose proof (filter_length_le p l). lia.
  - specialize (IH H Px). destruct (p a); simpl; lia.
Qed.

(** C7 (amended): the route id is text, and the engine must read it as a
    value of the [INTEGER] column, a whole number of 32 bits.  For an id
    it reads as the integer [k], the delete answers 200 and removes the
    record with that id when there is one, leaving the employees, the
    other records and the sequence alone; when there is none it answers
    404 and the database is unchanged.  For any other id, be it no
    number at all or a number beyond 32 bits, the engine rejects the
    statement and the answer is 500, the database unchanged, whether or
    not a record could be meant. *)
Theorem delete_by_id (e : env) (db : database) (s : string) :
  fault e 0%nat = None ->
  let r := serve e (DELETE_attendance s) db in
  (forall k, int4_in s = Some k ->
     (In k (map id (attendance_records (tbl db))) ->
      outcome r = inr (mkResponse 200 (MessageBody "Record deleted successfully"))
      /\ attendance_records (tbl (final r)) = without_id k (attendance_records (tbl db))
      /\ ~ In k (map id (attendance_records (tbl (final r))))
      /\ (forall a, id a <> k ->
            (In a (attendance_records (tbl (final r))) <-> In a (attendance_records (tbl db))))
      /\ employees (tbl (final r)) = employees (tbl db)
      /\ id_seq (final r) = id_seq db)
     /\
     (~ In k (map id (attendance_records (tbl db))) ->
      outcome r = inr (mkResponse 404 (ErrorBody "Record not found"))
      /\ final r = db))
  /\
  (int4_in s = None ->
   outcome r = inr (mkResponse 500 (ErrorBody ERR_INTEGER))
   /\ final r = db).
Proof.
  intros F r. split.
  - intros k I.
    destruct (delete_attendance_run e db s)
      as [(err & [C | (_ & C & _)] & _) | (k' & _ & I' & R)]; try congruence.
    rewrite I in I'. inversion I'; subst k'. cbv zeta in R. fold r in R. rewrite R.
    cbn [outcome final tbl id_seq employees attendance_records].
    split.
    + intros H. apply in_map_iff in H. destruct H as (x & Ix & Hx).
      assert (L : (List.length (without_id k (attendance_records (tbl db)))
                   < List.length (attendance_records (tbl db)))%nat).
      { apply (filter_drops _ _ x Hx). rewrite Ix, Z.eqb_refl. reflexivity. }
      destruct (Z.of_nat _ =? 0) eqn:Z0; [apply Z.eqb_eq in Z0; lia|].
      repeat split; auto.
      * intros C. apply in_map_iff in C. destruct C as (y & Iy & Hy).
        apply filter_In in Hy. destruct Hy as [_ Hy]. rewrite Iy, Z.eqb_refl in Hy. discriminate.
      * intros Ha. apply filter_In in Ha. apply Ha.
      * intros Ha. apply filter_In. split; [assumption|].
        apply negb_true_iff. now apply Z.eqb_neq.
    + intros H.
      assert (K : without_id k (attendance_records (tbl db)) = attendance_records (tbl db)).
      { apply filter_all. intros x Hx. apply negb_true_iff, Z.eqb_neq. intros C.
        apply H. rewrite <- C. now apply in_map. }
      rewrite K, Nat.sub_diag. simpl. split; [reflexivity|].
      destruct db as [[es rs] sq]; reflexivity.
  - intros I.
    destruct (delete_attendance_run e db s)
      as [(err & [C | (_ & _ & ->)] & R) | (k' & _ & I' & _)]; try congruence.
    fold r in R. rewrite R. split; reflexivity.
Qed.

(** ** Listings *)

Lemma Sorted_weaken {A : Type} (R R' : A -> A -> Prop) (l : list A) :
  (forall a b, R a b -> R' a b) -> Sorted R l -> Sorted R' l.
Proof.
  intros H. induction 1 as [|a l S IH Hd]; constructor; [assumption|].
  destruct Hd; constructor; auto.
Qed.

(** C9: for an employee id and two dates the engine accepts, the range
    listing answers with exactly the records of that employee dated
    between the two bounds, bounds included, latest date first. *)
Theorem list_range (e : env) (db : database) (emp s1 s2 : string) (d1 d2 : Z) :
  fault e 0%nat = None -> date_in s1 = Some d1 -> date_in s2 = Some d2 ->
  let r := serve e (GET_attendance_range emp s1 s2) db in
  exists rows,
    outcome r = inr (mkResponse 200 (RowsBody rows))
    /\ Permutation rows
         (filter (fun a => (rec_emp_id a =? emp)%string && ((d1 <=? date a) && (date a <=? d2)))
            (attendance_records (tbl db)))
    /\ (forall a, In a rows <->
                  In a (attendance_records (tbl db))
                  /\ rec_emp_id a = emp /\ d1 <= date a <= d2)
    /\ StronglySorted (fun a b => date b <= date a) rows
    /\ final r = db.
Proof.
  intros F D1 D2 r.
  set (sel := fun a => (rec_emp_id a =? emp)%string && ((d1 <=? date a) && (date a <=? d2))).
  exists (order_by by_date_desc (filter sel (attendance_records (tbl db)))).
  split; [|split; [|split; [|split]]].
  - subst r. unfold serve, route, handle, get_attendance_range.
    cbv [bind try_catch query ret logged current visible txn seqv log tbl id_seq List.length].
    rewrite F. cbv [exec]. rewrite D1, D2. reflexivity.
  - apply order_by_perm.
  - intros a. split.
    + intros H. apply (Permutation_in _ (order_by_perm _ _)) in H.
      apply filter_In in H. destruct H as [H S]. unfold sel in S.
      rewrite !andb_true_iff, String.eqb_eq, !Z.leb_le in S. tauto.
    + intros (H & E & L). apply (Permutation_in _ (Permutation_sym (order_by_perm _ _))).
      apply filter_In. split; [assumption|]. unfold sel.
      rewrite !andb_true_iff, String.eqb_eq, !Z.leb_le. tauto.
  - apply Sorted_StronglySorted.
    + intros a b c. lia.
    + apply (Sorted_weaken (fun a b => by_date_desc a b = true)).
      * intros a b H. unfold by_date_desc in H. now apply Z.leb_le.
      * apply order_by_sorted, by_date_desc_total.
  - apply handle_keeps_store, get_attendance_range_keeps.
Qed.


(** The filters as the listing's contract reads them.  A date filter is
    absent ([Some None]), a date ([Some (Some d)]), or provided without
    being a date ([None]); a filter is provided when it is truthy. *)
Definition date_filter (v : jsval) : option (option Z) :=
  if truthy v
  then match prepareValue v with
       | Some s => match date_in s with
                   | Some d => Some (Some d)
                   | None => None
                   end
       | None => None
       end
  else Some None.

Definition type_filter (v : jsval) : option string :=
  if truthy v then prepareValue v else None.

(** A record satisfies every provided predicate. *)
Definition selected (lo hi : option Z) (ty : option string) (a : attendance) : bool :=
  match lo with Some d => d <=? date a | None => true end
  && match hi with Some d => date a <=? d | None => true end
  && match ty with Some s => (attendance_type a =? s)%string | None => true end.

(** Date descending, then employee id ascending in the collation. *)
Definition date_desc_then_emp (a b : attendance) : Prop :=
  date b < date a \/ (date a = date b /\ text_leb (rec_emp_id a) (rec_emp_id b) = true).

Lemma date_filter_inv (v : jsval) (o : option Z) :
  date_filter v = Some o ->
  (truthy v = false /\ o = None)
  \/ (exists s d, truthy v = true /\ prepareValue v = Some s /\ date_in s = Some d /\ o = Some d).
Proof.
  unfold date_filter. destruct (truthy v); [|intros H; inversion H; auto].
  destruct (prepareValue v) as [s|]; [|discriminate].
  destruct (date_in s) as [d|] eqn:D; [|discriminate].
  intros H; inversion H. right. eauto 6.
Qed.

(** C5 (amended): whichever of the three filters are provided, and
    provided date filters being dates, the filtered listing answers with
    exactly the records that satisfy all provided predicates (start and
    end inclusive, type equal), all records when none is provided, ordered
    by date descending and then employee id ascending. *)
Theorem list_filtered (e : env) (db : database) (start_date end_date ty : jsval)
        (lo hi : option Z) :
  total text_leb ->
  fault e 0%nat = None ->
  date_filter start_date = Some lo -> date_filter end_date = Some hi ->
  let r := serve e (GET_attendance start_date end_date ty) db in
  exists rows,
    outcome r = inr (mkResponse 200 (RowsBody rows))
    /\ Permutation rows
         (filter (selected lo hi (type_filter ty)) (attendance_records (tbl db)))
    /\ (truthy start_date = false -> truthy end_date = false ->
        truthy ty = false ->
        Permutation rows (attendance_records (tbl db)))
    /\ Sorted date_desc_then_emp rows
    /\ final r = db.
Proof.
  intros T F Dlo Dhi r.
  exists (order_by by_date_desc_emp
            (filter (selected lo hi (type_filter ty))
               (attendance_records (tbl db)))).
  split; [|split; [|split; [|split]]].
  - subst r. unfold serve, route, handle, get_attendance, type_filter.
    apply date_filter_inv in Dlo, Dhi.
    destruct Dlo as [(T1 & ->) | (s1 & d1 & T1 & P1 & D1 & ->)];
      destruct Dhi as [(T2 & ->) | (s2 & d2 & T2 & P2 & D2 & ->)];
      rewrite T1, T2; try rewrite P1; try rewrite P2;
      destruct (truthy ty) eqn:T3;
      try (destruct (truthy_prepareValue _ T3) as [s3 P3]; rewrite P3);
      cbv [bind try_catch query ret logged current visible txn seqv log
           List.length app];
      rewrite F; cbv [exec where_tests cond_test nth_error Nat.sub];
      try rewrite D1; try rewrite D2; cbn [outcome rows];
      do 3 f_equal; f_equal; apply filter_ext; intros a; unfold selected; simpl;
      rewrite ?andb_true_r, ?andb_assoc; reflexivity.
  - apply order_by_perm.
  - intros T1 T2 T3.
    unfold date_filter in Dlo, Dhi. rewrite T1 in Dlo. rewrite T2 in Dhi.
    inversion Dlo; inversion Dhi; subst. unfold type_filter. rewrite T3.
    rewrite order_by_perm. rewrite filter_all; [reflexivity|]. reflexivity.
  - apply (Sorted_weaken (fun a b => by_date_desc_emp a b = true)).
    + intros a b H. unfold by_date_desc_emp in H. unfold date_desc_then_emp.
      apply orb_true_iff in H. destruct H as [H | H].
      * left. now apply Z.ltb_lt.
      * right. apply andb_true_iff in H. destruct H as [H1 H2].
        apply Z.eqb_eq in H1. auto.
    + apply order_by_sorted, by_date_desc_emp_total, T.
  - apply handle_keeps_store, get_attendance_keeps.
Qed.


(** ** Statistics *)

Lemma parseInt_count_text (n : nat) : parseInt (count_text n) = Some (Z.of_nat n).
Proof.
  unfold parseInt, count_text.
  assert (N : Nat.to_uint n <> Decimal.Nil).
  { rewrite <- (DecimalNat.Unsigned.of_to n) at 1.
    rewrite DecimalNat.Unsigned.to_of. unfold Decimal.unorm.
    destruct (Decimal.nzhead (Nat.to_uint n)); discriminate. }
  destruct (NilEmpty.string_of_uint (Nat.to_uint n)) eqn:S.
  - destruct (Nat.to_uint n); simpl in S; try discriminate S. contradiction.
  - rewrite <- S, NilEmpty.usu, DecimalNat.Unsigned.of_to. reflexivity.
Qed.

(** The count of a group as a number, the counts summed, and the count
    listed for a type (0 when the type has no group). *)
Definition group_count (g : string * string) : Z :=
  match parseInt (snd g) with
  | Some n => n
  | None => 0
  end.

Definition sum_counts (gs : list (string * string)) : Z :=
  fold_right (fun g acc => group_count g + acc) 0 gs.

Definition count_for (ty : string) (gs : list (string * string)) : Z :=
  match find (fun g => (fst g =? ty)%string) gs with
  | Some g => group_count g
  | None => 0
  end.

Definition as_text (g : string * nat) : string * string := (fst g, count_text (snd g)).

Lemma group_count_as_text g : group_count (as_text g) = Z.of_nat (snd g).
Proof. unfold group_count, as_text. simpl. now rewrite parseInt_count_text. Qed.

Lemma distinct_In (x : string) (l : list string) : In x (distinct l) <-> In x l.
Proof.
  induction l as [|a l IH]; simpl; [tauto|].
  rewrite filter_In, negb_true_iff, String.eqb_neq, IH.
  destruct (String.eqb_spec a x); [tauto|]. intuition congruence.
Qed.

Lemma distinct_NoDup (l : list string) : NoDup (distinct l).
Proof.
  induction l as [|a l IH]; simpl; constructor.
  - rewrite filter_In, negb_true_iff, String.eqb_neq. tauto.
  - now apply NoDup_filter.
Qed.

Lemma list_sum_perm (l l' : list nat) : Permutation l l' -> list_sum l = list_sum l'.
Proof. induction 1; simpl; lia. Qed.

Lemma indicator_zero (x : string) (tys : list string) :
  ~ In x tys -> list_sum (map (fun ty => if (x =? ty)%string then 1 else 0)%nat tys) = 0%nat.
Proof.
  induction tys as [|t tys IH]; simpl; intros H; [reflexivity|].
  destruct (String.eqb_spec x t); [exfalso; auto|]. apply IH. tauto.
Qed.

Lemma indicator_one (x : string) (tys : list string) :
  NoDup tys -> In x tys ->
  list_sum (map (fun ty => if (x =? ty)%string then 1 else 0)%nat tys) = 1%nat.
Proof.
  induction tys as [|t tys IH]; simpl; intros N H; [contradiction|].
  inversion N as [|? ? Hn N']; subst.
  destruct (String.eqb_spec x t) as [->|Ne].
  - now rewrite indicator_zero.
  - destruct H as [H | H]; [congruence|]. now apply IH.
Qed.

(** The groups partition the rows. *)
Lemma count_partition (tys : list string) (l : list attendance) :
  NoDup tys -> (forall a, In a l -> In (attendance_type a) tys) ->
  list_sum (map (fun ty => count_of_type ty l) tys) = List.length l.
Proof.
  intros N. induction l as [|a l IH]; intros H.
  - unfold count_of_type. simpl. clear. induction tys; simpl; auto.
  - assert (E : list_sum (map (fun ty => count_of_type ty (a :: l)) tys)
                = (list_sum (map (fun ty => if (attendance_type a =? ty)%string then 1 else 0) tys)
                   + list_sum (map (fun ty => count_of_type ty l) tys))%nat).
    { clear. induction tys as [|t tys IHt]; simpl; [reflexivity|].
      rewrite IHt. unfold count_of_type at 1 3. simpl.
      destruct (attendance_type a =? t)%string; simpl; lia. }
    rewrite E, IH by (intros; apply H; now right).
    rewrite (indicator_one _ _ N (H a (or_introl eq_refl))). reflexivity.
Qed.

Lemma sum_counts_as_text (G : list (string * nat)) :
  sum_counts (map as_text G) = Z.of_nat (list_sum (map snd G)).
Proof.
  induction G as [|g G IH]; simpl; [reflexivity|].
  rewrite IH, group_count_as_text. lia.
Qed.

Lemma Sorted_map {A B : Type} (R : A -> A -> Prop) (R' : B -> B -> Prop) (f : A -> B) l :
  (forall a b, R a b -> R' (f a) (f b)) -> Sorted R l -> Sorted R' (map f l).
Proof.
  intros H. induction 1 as [|a l S IH Hd]; simpl; constructor; [assumption|].
  destruct Hd; simpl; constructor; auto.
Qed.

(** The groups of [CountByType] before and after ordering. *)
Definition groups_of (l : list attendance) : list (string * nat) :=
  map (fun ty => (ty, count_of_type ty l)) (distinct (map attendance_type l)).

Lemma groups_of_In l g :
  In g (groups_of l) <-> In (fst g) (map attendance_type l) /\ snd g = count_of_type (fst g) l.
Proof.
  unfold groups_of. rewrite in_map_iff. split.
  - intros (ty & <- & H). rewrite distinct_In in H. split; [exact H|reflexivity].
  - intros [H E]. exists (fst g). split; [destruct g; simpl in *; congruence|].
    now apply distinct_In.
Qed.


(** C6: the statistics answer is consistent with itself.  The total is
    the number of records and the sum of the group counts; the WFO and WFH
    figures are the counts listed for those types (0 when a type has no
    group); there is one group per attendance type present, holding the
    number of records of that type; and the groups come by count
    descending. *)
Theorem stats_consistent (e : env) (db : database) :
  (forall k, fault e k = None) ->
  let r := serve e GET_stats db in
  exists totalEmployees totalRecords wfoRecords wfhRecords attendanceByType,
    outcome r = inr (mkResponse 200
                       (StatsBody (Some totalEmployees) (Some totalRecords)
                          (Some wfoRecords) (Some wfhRecords) attendanceByType))
    /\ totalEmployees = Z.of_nat (List.length (employees (tbl db)))
    /\ totalRecords = Z.of_nat (List.length (attendance_records (tbl db)))
    /\ totalRecords = sum_counts attendanceByType
    /\ wfoRecords = count_for "WFO" attendanceByType
    /\ wfhRecords = count_for "WFH" attendanceByType
    /\ NoDup (map fst attendanceByType)
    /\ (forall ty, In ty (map fst attendanceByType)
                   <-> In ty (map attendance_type (attendance_records (tbl db))))
    /\ (forall g, In g attendanceByType ->
                  group_count g = Z.of_nat (count_of_type (fst g) (attendance_records (tbl db))))
    /\ StronglySorted (fun g1 g2 => group_count g2 <= group_count g1) attendanceByType
    /\ final r = db.
Proof.
  intros F r.
  set (att := attendance_records (tbl db)).
  set (G1 := order_by by_count_desc (groups_of att)).
  assert (P : Permutation G1 (groups_of att)) by apply order_by_perm.
  assert (M : forall g, In g (map as_text G1) ->
                        In (fst g) (map attendance_type att)
                        /\ group_count g = Z.of_nat (count_of_type (fst g) att)).
  { intros g H. apply in_map_iff in H. destruct H as (g1 & <- & H1).
    apply (Permutation_in _ P) in H1. apply groups_of_In in H1. destruct H1 as [H1 H2].
    rewrite group_count_as_text. simpl. now rewrite H2. }
  assert (C : forall ty, count_for ty (map as_text G1) = Z.of_nat (count_of_type ty att)).
  { intros ty. unfold count_for.
    destruct (find _ (map as_text G1)) as [g|] eqn:Fd.
    - apply find_some in Fd. destruct Fd as [Hg Eg]. apply String.eqb_eq in Eg.
      destruct (M g Hg) as [_ ->]. now rewrite Eg.
    - unfold count_of_type. rewrite filter_none; [reflexivity|].
      intros a Ha. apply String.eqb_neq. intros Ea.
      assert (Hg : In (as_text (ty, count_of_type ty att)) (map as_text G1)).
      { apply in_map, (Permutation_in _ (Permutation_sym P)), groups_of_In. simpl.
        split; [|reflexivity]. rewrite <- Ea. now apply in_map. }
      pose proof (find_none _ _ Fd _ Hg) as Q. simpl in Q.
      rewrite String.eqb_refl in Q. discriminate Q. }
  exists (Z.of_nat (List.length (employees (tbl db)))), (Z.of_nat (List.length att)),
    (Z.of_nat (count_of_type "WFO" att)), (Z.of_nat (count_of_type "WFH" att)),
    (map as_text G1).
  split; [|split; [reflexivity|split; [reflexivity|
    split; [|split; [|split; [|split; [|split; [|split; [|split]]]]]]]]].
  - subst r. unfold serve, route, handle, get_stats.
    cbv [bind try_catch query ret logged current visible txn seqv log List.length app
         rows0_count].
    rewrite !F. cbv [exec rows0_count ret group_rows]. rewrite !F.
    cbn [outcome]. rewrite !parseInt_count_text. reflexivity.
  - rewrite sum_counts_as_text. f_equal.
    rewrite (list_sum_perm _ _ (Permutation_map snd P)).
    unfold groups_of. rewrite map_map. simpl.
    symmetry. apply count_partition; [apply distinct_NoDup|].
    intros a Ha. apply distinct_In. now apply in_map.
  - symmetry. apply C.
  - symmetry. apply C.
  - rewrite map_map. simpl.
    apply (Permutation_NoDup (l := map fst (groups_of att))).
    + apply Permutation_sym, (Permutation_map fst P).
    + unfold groups_of. rewrite map_map. simpl. rewrite map_id. apply distinct_NoDup.
  - intros ty. rewrite map_map. simpl. split.
    + intros H. apply in_map_iff in H. destruct H as (g & <- & Hg).
      apply (Permutation_in _ P), groups_of_In in Hg. apply Hg.
    + intros H. apply in_map_iff. exists (ty, count_of_type ty att). split; [reflexivity|].
      apply (Permutation_in _ (Permutation_sym P)), groups_of_In. simpl. auto.
  - intros g Hg. apply M, Hg.
  - apply Sorted_StronglySorted; [intros a b c; lia|].
    apply (Sorted_map (fun a b => by_count_desc a b = true)).
    + intros a b H. rewrite !group_count_as_text. unfold by_count_desc in H.
      apply Nat.leb_le in H. lia.
    + apply order_by_sorted, by_count_desc_total.
  - apply handle_keeps_store, get_stats_keeps.
Qed.


(** * Beyond the write path: what every route does and never does *)

(** ** Routes that only read *)

Definition is_get (r : request) : bool :=
  match r with
  | POST_employees _ _ | POST_attendance _ _ _ _ | DELETE_attendance _ => false
  | _ => true
  end.

(** [quiet m]: [m] leaves the committed tables, the open transaction, the
    sequence and the pool as found, and whatever it sends is a reading
    statement. *)
Definition quiet {A : Type} (m : M A) : Prop :=
  forall e s r s', m e s = (r, s') ->
    visible s' = visible s /\ txn s' = txn s /\ seqv s' = seqv s
    /\ clients_out s' = clients_out s
    /\ exists l, log s' = log s ++ l /\ Forall (fun en => read_only (e_stmt en) = true) l.

Lemma quiet_ret {A : Type} (a : A) : quiet (ret a).
Proof.
  intros e s r s' H; inversion H; subst. repeat split; auto.
  exists []. now rewrite app_nil_r.
Qed.

Lemma quiet_throw {A : Type} (err : string) : quiet (@throw A err).
Proof.
  intros e s r s' H; inversion H; subst. repeat split; auto.
  exists []. now rewrite app_nil_r.
Qed.

Lemma quiet_then {A : Type} (s s1 s2 : session) :
  (visible s1 = visible s /\ txn s1 = txn s /\ seqv s1 = seqv s
   /\ clients_out s1 = clients_out s
   /\ exists l, log s1 = log s ++ l /\ Forall (fun en => read_only (e_stmt en) = true) l) ->
  (visible s2 = visible s1 /\ txn s2 = txn s1 /\ seqv s2 = seqv s1
   /\ clients_out s2 = clients_out s1
   /\ exists l, log s2 = log s1 ++ l /\ Forall (fun en => read_only (e_stmt en) = true) l) ->
  visible s2 = visible s /\ txn s2 = txn s /\ seqv s2 = seqv s
  /\ clients_out s2 = clients_out s
  /\ exists l, log s2 = log s ++ l /\ Forall (fun en => read_only (e_stmt en) = true) l.
Proof.
  intros (V & T & Q & C & l & L & F) (V' & T' & Q' & C' & l' & L' & F').
  repeat split; try congruence.
  exists (l ++ l'). split; [rewrite L', L; symmetry; apply app_assoc|].
  apply Forall_app. now split.
Qed.

Lemma quiet_bind {A B : Type} (m : M A) (k : A -> M B) :
  quiet m -> (forall a, quiet (k a)) -> quiet (bind m k).
Proof.
  intros Hm Hk e s r s'. unfold bind.
  destruct (m e s) as [[err|a] s1] eqn:E1; intros H.
  - inversion H; subst. eapply Hm; eauto.
  - eapply (quiet_then (A := A)); [eapply Hm; eauto | eapply Hk; eauto].
Qed.

Lemma quiet_try_catch {A : Type} (m : M A) (h : string -> M A) :
  quiet m -> (forall err, quiet (h err)) -> quiet (try_catch m h).
Proof.
  intros Hm Hh e s r s'. unfold try_catch.
  destruct (m e s) as [[err|a] s1] eqn:E1; intros H.
  - eapply (quiet_then (A := A)); [eapply Hm; eauto | eapply Hh; eauto].
  - inversion H; subst. eapply Hm; eauto.
Qed.

Lemma quiet_query (q : stmt) : read_only q = true -> quiet (query q).
Proof.
  intros RO e s r s' H.
  destruct (keeps_query q RO e s r s' H) as (V & T & Q).
  repeat split; auto.
  - revert H. unfold query.
    destruct q; try discriminate RO;
      (destruct (fault e (List.length (log s))); [intros H; inversion H; reflexivity|];
       match goal with
       | |- context [exec ?n ?q ?t ?sq] => destruct (exec n q t sq) as [err|[[r0 t'] seq']]
       end; [intros H; inversion H; reflexivity|];
       destruct (txn s); intros H; inversion H; reflexivity).
  - revert H. unfold query.
    destruct q; try discriminate RO;
      (destruct (fault e (List.length (log s))) as [err0|];
       [intros H; inversion H; simpl; eexists; split; [reflexivity|]; repeat constructor|];
       match goal with
       | |- context [exec ?n ?q ?t ?sq] => destruct (exec n q t sq) as [err|[[r0 t'] seq']]
       end;
       [intros H; inversion H; simpl; eexists; split; [reflexivity|]; repeat constructor|];
       destruct (txn s); intros H; inversion H; simpl; eexists; split;
       try reflexivity; repeat constructor).
Qed.

Lemma quiet_rows0_count (r : qresult) : quiet (rows0_count r).
Proof. destruct r; simpl; auto using quiet_ret, quiet_throw. Qed.

Ltac quiet_handler :=
  repeat first
    [ apply quiet_ret
    | apply quiet_rows0_count
    | apply quiet_query; reflexivity
    | apply quiet_try_catch; [|intros]
    | apply quiet_bind; [|intros] ].

Lemma route_quiet (r : request) : is_get r = true -> quiet (route r).
Proof.
  destruct r as [i n | i n ty d | s1 s2 ty | | s | i s1 s2 | | | i | ];
    try discriminate; intros _; simpl.
  - unfold get_attendance. destruct (truthy s1), (truthy s2), (truthy ty); quiet_handler.
  - unfold get_stats. quiet_handler.
  - unfold get_attendance_range. quiet_handler.
  - unfold get_root. quiet_handler.
  - unfold get_employees. quiet_handler.
  - unfold get_attendance_of. quiet_handler.
  - unfold get_health. quiet_handler.
Qed.


Lemma get_route_served (e : env) (r : request) (db : database) :
  is_get r = true ->
  final (serve e r db) = db
  /\ Forall (fun en => read_only (e_stmt en) = true) (statements (serve e r db))
  /\ open_txn (serve e r db) = false
  /\ leaked (serve e r db) = 0%nat.
Proof.
  intros G. pose proof (route_quiet r G) as Q.
  unfold serve, handle.
  destruct (route r e _) as [o s'] eqn:E.
  apply Q in E. simpl in E.
  destruct E as (V & T & S & C & l & L & F). simpl.
  split; [rewrite V, S; apply database_eta|].
  split; [now rewrite L|].
  split; [now rewrite T | exact C].
Qed.

(** X4: every GET route, whatever the engine does to its statements, sends
    reading statements only, leaves the database exactly as found, opens
    no transaction and holds no client. *)
Theorem get_routes_never_write (e : env) (r : request) (db : database) :
  is_get r = true ->
  final (serve e r db) = db
  /\ Forall (fun en => read_only (e_stmt en) = true) (statements (serve e r db))
  /\ open_txn (serve e r db) = false
  /\ leaked (serve e r db) = 0%nat.
Proof. apply get_route_served. Qed.

(** ** Every request is answered *)

Lemma try_catch_answers (m : M response) (f : string -> response) e s :
  exists resp s', try_catch m (fun err => ret (f err)) e s = (inr resp, s').
Proof.
  unfold try_catch, ret. destruct (m e s) as [[err|resp] s1]; eauto.
Qed.

Lemma route_answers (r : request) (e : env) (s : session) :
  is_get r = true -> exists resp s', route r e s = (inr resp, s').
Proof.
  destruct r as [i n | i n ty d | s1 s2 ty | | s0 | i s1 s2 | | | i | ];
    try discriminate; intros _; simpl.
  - unfold get_attendance. destruct (truthy s1), (truthy s2), (truthy ty);
      apply try_catch_answers.
  - apply try_catch_answers.
  - apply try_catch_answers.
  - unfold get_root, ret. eauto.
  - apply try_catch_answers.
  - apply try_catch_answers.
  - apply try_catch_answers.
Qed.

(** What a served request comes to, in the four ways the writers can go;
    [settled] gathers what they share. *)
Definition settled (r : served) (db : database) : Prop :=
  exists resp,
    outcome r = inr resp /\ open_txn r = false /\ leaked r = 0%nat
    /\ (status resp <> 200 -> final r = db)
    /\ id_seq db <= id_seq (final r).

Lemma filter_same_length {A : Type} (p : A -> bool) (l : list A) :
  List.length (filter p l) = List.length l -> filter p l = l.
Proof.
  intros H. apply filter_all. apply forallb_forall.
  now apply filter_length_forallb.
Qed.

Lemma serve_settled (e : env) (r : request) (db : database) : settled (serve e r db) db.
Proof.
  destruct (is_get r) eqn:G.
  - destruct (get_route_served e r db G) as (Fn & _ & O & L).
    unfold settled. rewrite Fn, O, L.
    unfold serve, handle in *.
    destruct (route_answers r e (mkSession (tbl db) None (id_seq db) [] 0) G) as (resp & s' & E).
    rewrite E. simpl. exists resp. repeat split; auto. lia.
  - destruct r as [i n | i n ty d | s1 s2 ty | | s | i s1 s2 | | | i | ]; try discriminate G.
    + destruct (truthy i) eqn:Ti; [destruct (truthy n) eqn:Tn|].
      * destruct (truthy_prepareValue _ Ti) as [si Pi].
        destruct (truthy_prepareValue _ Tn) as [sn Pn].
        destruct (post_employees_run e db i n si sn Ti Tn Pi Pn) as [(err & _ & ->) | (_ & ->)];
          eexists; simpl; repeat split; try reflexivity; try lia; intros C; now elim C.
      * unfold serve, route, handle, post_employees. rewrite Ti, Tn. simpl.
        eexists; simpl; repeat split; try reflexivity; try lia. intros _. apply database_eta.
      * unfold serve, route, handle, post_employees. rewrite Ti. simpl.
        eexists; simpl; repeat split; try reflexivity; try lia. intros _. apply database_eta.
    + destruct (negb (truthy i) || negb (truthy n) || negb (truthy ty) || negb (truthy d)) eqn:V.
      * unfold serve, route, handle, post_attendance. rewrite V. simpl.
        eexists; simpl; repeat split; try reflexivity; try lia. intros _. apply database_eta.
      * rewrite !orb_false_iff, !negb_false_iff in V. destruct V as [[[Ti Tn] Tty] Td].
        destruct (truthy_prepareValue _ Ti) as [si Pi].
        destruct (truthy_prepareValue _ Tn) as [sn Pn].
        destruct (truthy_prepareValue _ Tty) as [sty Pty].
        destruct (truthy_prepareValue _ Td) as [sd Pd].
        destruct (post_attendance_run e db i n ty d si sn sty sd Ti Tn Tty Td Pi Pn Pty Pd)
          as [(err & _ & ->) | [(err & _ & _ & ->) | (i0 & ids & rows' & _ & _ & _ & ->)]];
          eexists; simpl; repeat split; try reflexivity; try lia; intros C; now elim C.
    + destruct (delete_attendance_run e db s) as [(err & _ & ->) | (k & _ & _ & R)].
      * eexists; simpl; repeat split; try reflexivity; lia.
      * cbv zeta in R. rewrite R. clear R.
        destruct (Z.of_nat _ =? 0) eqn:Z0; eexists; simpl; repeat split;
          try reflexivity; try lia; intros C; try now elim C.
        apply Z.eqb_eq in Z0.
        pose proof (filter_length_le (fun r => negb (id r =? k)) (attendance_records (tbl db))) as Le.
        unfold without_id in *.
        rewrite filter_same_length by lia.
        destruct db as [[es rs] sq]; reflexivity.
Qed.

(** X2: under the model's live session every request, reading or writing,
    faulted or not, is answered with a response; when the handler is done
    no transaction is open and no pooled client is held. *)
Theorem every_request_is_answered (e : env) (r : request) (db : database) :
  exists resp,
    outcome (serve e r db) = inr resp
    /\ open_txn (serve e r db) = false
    /\ leaked (serve e r db) = 0%nat.
Proof.
  destruct (serve_settled e r db) as (resp & O & T & L & _). eauto.
Qed.

(** X3: the tables change only under a 200: whatever the request, a
    response with any other status (400, 404, 500) means the two tables
    are exactly as the request found them.  Of the id sequence only this
    much is stated, under any status: it never moves back.  (When the
    engine rejects a record upsert after drawing the next id, that id
    stays drawn; a rejected statement is modelled here without it.) *)
Theorem database_changes_only_on_200 (e : env) (r : request) (db : database) (resp : response) :
  outcome (serve e r db) = inr resp ->
  (status resp <> 200 -> tbl (final (serve e r db)) = tbl db)
  /\ id_seq db <= id_seq (final (serve e r db)).
Proof.
  intros O. destruct (serve_settled e r db) as (resp' & O' & _ & _ & K & Sq).
  rewrite O in O'. inversion O'; subst. split; [|exact Sq].
  intros S. now rewrite (K S).
Qed.



(** ** Validation, exactly *)

(** X1: the two POST routes answer 400 exactly when a required field is
    falsy in JavaScript's sense: missing, [null], the empty string, and
    also the number 0 and [false].  Any other value passes, and the
    request is then answered 200 or 500, whatever the engine does. *)
Theorem validation_is_exact (e : env) (db : database) :
  (forall i n,
      exists resp,
        outcome (serve e (POST_employees i n) db) = inr resp
        /\ (status resp = 400 <-> truthy i && truthy n = false)
        /\ (truthy i && truthy n = true -> status resp = 200 \/ status resp = 500))
  /\
  (forall i n ty d,
      exists resp,
        outcome (serve e (POST_attendance i n ty d) db) = inr resp
        /\ (status resp = 400 <-> truthy i && truthy n && truthy ty && truthy d = false)
        /\ (truthy i && truthy n && truthy ty && truthy d = true ->
            status resp = 200 \/ status resp = 500)).
Proof.
  split.
  - intros i n.
    destruct (truthy i) eqn:Ti; [destruct (truthy n) eqn:Tn|].
    + destruct (truthy_prepareValue _ Ti) as [si Pi].
      destruct (truthy_prepareValue _ Tn) as [sn Pn].
      destruct (post_employees_run e db i n si sn Ti Tn Pi Pn) as [(err & _ & ->) | (_ & ->)];
        eexists; (split; [reflexivity|]); simpl; (split; [split; discriminate|]); intros _;
        [right | left]; reflexivity.
    + unfold serve, route, handle, post_employees. rewrite Ti, Tn. simpl.
      eexists; split; [reflexivity|]. simpl. split; [tauto | discriminate].
    + unfold serve, route, handle, post_employees. rewrite Ti. simpl.
      eexists; split; [reflexivity|]. simpl. split; [tauto | discriminate].
  - intros i n ty d.
    destruct (negb (truthy i) || negb (truthy n) || negb (truthy ty) || negb (truthy d)) eqn:V.
    + unfold serve, route, handle, post_attendance. rewrite V. simpl.
      eexists; split; [reflexivity|]. simpl.
      assert (Falsy : truthy i && truthy n && truthy ty && truthy d = false)
        by (destruct (truthy i), (truthy n), (truthy ty), (truthy d); simpl in *; congruence).
      rewrite Falsy. split; [tauto | discriminate].
    + rewrite !orb_false_iff, !negb_false_iff in V. destruct V as [[[Ti Tn] Tty] Td].
      destruct (truthy_prepareValue _ Ti) as [si Pi].
      destruct (truthy_prepareValue _ Tn) as [sn Pn].
      destruct (truthy_prepareValue _ Tty) as [sty Pty].
      destruct (truthy_prepareValue _ Td) as [sd Pd].
      rewrite Ti, Tn, Tty, Td.
      destruct (post_attendance_run e db i n ty d si sn sty sd Ti Tn Tty Td Pi Pn Pty Pd)
        as [(err & _ & ->) | [(err & _ & _ & ->) | (i0 & ids & rows' & _ & _ & _ & ->)]];
        eexists; (split; [reflexivity|]); simpl; (split; [split; discriminate|]); intros _;
        [right | right | left]; reflexivity.
Qed.

(** ** What an employee upsert does to the employee's row *)

Lemma filter_emp_map (up : employee -> employee) (i : string) (l : list employee) :
  (forall x, emp_id (up x) = emp_id x) ->
  filter (fun y => (emp_id y =? i)%string) (map up l)
  = map up (filter (fun y => (emp_id y =? i)%string) l).
Proof.
  intros H. induction l as [|a l IH]; simpl; [reflexivity|].
  rewrite H. destruct (emp_id a =? i)%string; simpl; now rewrite IH.
Qed.

(** On a table with unique ids the upsert leaves one row for the id: the
    given name, [updated_at] at the clock, and [created_at] kept from the
    old row if there was one. *)
Lemma upsert_employee_own now i n es :
  NoDup (map emp_id es) ->
  exists c,
    filter (fun y => (emp_id y =? i)%string) (upsert_employee now i n es)
    = [mkEmployee i n c now]
    /\ (forall x, In x es -> emp_id x = i -> c = created_at x)
    /\ (~ In i (map emp_id es) -> c = now).
Proof.
  intros N. unfold upsert_employee.
  destruct (existsb (fun e0 => (emp_id e0 =? i)%string) es) eqn:E.
  - apply existsb_emp_id in E.
    destruct (filter_emp_unique i es N E) as (x & Fx & Ex).
    exists (created_at x). split; [|split].
    + rewrite filter_emp_map; [|intros y; now destruct (emp_id y =? i)%string].
      rewrite Fx. simpl. rewrite Ex, String.eqb_refl. reflexivity.
    + intros y Hy Ey.
      assert (In y (filter (fun z => (emp_id z =? i)%string) es)).
      { apply filter_In. split; [assumption|]. now apply String.eqb_eq. }
      rewrite Fx in H. destruct H as [-> | []]. reflexivity.
    + intros C. contradiction.
  - exists now. split; [|split].
    + rewrite filter_app. simpl. rewrite String.eqb_refl.
      rewrite filter_none; [reflexivity|].
      intros y Hy. apply String.eqb_neq. intros Ey.
      assert (existsb (fun e0 => (emp_id e0 =? i)%string) es = true); [|congruence].
      apply existsb_emp_id. rewrite <- Ey. now apply in_map.
    + intros y Hy Ey. exfalso.
      assert (existsb (fun e0 => (emp_id e0 =? i)%string) es = true); [|congruence].
      apply existsb_emp_id. rewrite <- Ey. now apply in_map.
    + reflexivity.
Qed.

(** X5: a 200 from [POST /employees] on a reachable state: the employee has
    one row, with the posted name and [updated_at] at the clock, and with
    the [created_at] it had if it existed; the other employees, all
    attendance records (the names copied into them included) and the
    sequence are as before. *)
Theorem employee_upsert_effect (e : env) (db : database) (i n : jsval) (resp : response) :
  reachable db ->
  outcome (serve e (POST_employees i n) db) = inr resp -> status resp = 200 ->
  exists si sn c,
    prepareValue i = Some si /\ prepareValue n = Some sn
    /\ filter (fun y => (emp_id y =? si)%string) (employees (tbl (final (serve e (POST_employees i n) db))))
       = [mkEmployee si sn c (now e)]
    /\ (forall x, In x (employees (tbl db)) -> emp_id x = si -> c = created_at x)
    /\ (~ In si (map emp_id (employees (tbl db))) -> c = now e)
    /\ filter (fun y => negb (emp_id y =? si)%string)
         (employees (tbl (final (serve e (POST_employees i n) db))))
       = filter (fun y => negb (emp_id y =? si)%string) (employees (tbl db))
    /\ attendance_records (tbl (final (serve e (POST_employees i n) db)))
       = attendance_records (tbl db)
    /\ id_seq (final (serve e (POST_employees i n) db)) = id_seq db.
Proof.
  intros R O S.
  destruct (truthy i) eqn:Ti; [destruct (truthy n) eqn:Tn|].
  - destruct (truthy_prepareValue _ Ti) as [si Pi].
    destruct (truthy_prepareValue _ Tn) as [sn Pn].
    destruct (post_employees_run e db i n si sn Ti Tn Pi Pn) as [(err & _ & Rn) | (_ & Rn)];
      rewrite Rn in O |- *; simpl in *.
    + inversion O; subst. simpl in S. discriminate S.
    + destruct (upsert_employee_own (now e) si sn (employees (tbl db))
                  (wf_emp_pkey _ (reachable_wf _ R))) as (c & F & Old & New).
      exists si, sn, c. repeat split; auto. apply upsert_employee_others.
  - unfold serve, route, handle, post_employees in O. rewrite Ti, Tn in O. simpl in O.
    inversion O; subst. discriminate S.
  - unfold serve, route, handle, post_employees in O. rewrite Ti in O. simpl in O.
    inversion O; subst. discriminate S.
Qed.

(** X6: a successful attendance upsert is also an employee upsert: the
    employee's row afterwards carries the posted [emp_name] and the
    request's clock as [updated_at], whatever name it had, and keeps its
    [created_at]. *)
Theorem attendance_upsert_renames_the_employee
        (db : database) (e : env) (i n ty d : jsval) (m : string) (i1 : Z) :
  reachable db ->
  outcome (serve e (POST_attendance i n ty d) db)
    = inr (mkResponse 200 (AttendanceAdded m i1)) ->
  exists si sn c,
    prepareValue i = Some si /\ prepareValue n = Some sn
    /\ filter (fun y => (emp_id y =? si)%string)
         (employees (tbl (final (serve e (POST_attendance i n ty d) db))))
       = [mkEmployee si sn c (now e)]
    /\ (forall x, In x (employees (tbl db)) -> emp_id x = si -> c = created_at x).
Proof.
  intros R O.
  destruct (post_attendance_200 _ _ _ _ _ _ _ _ O)
    as (si & sn & sty & sd & dd & ids & rows' & Pi & Pn & _ & _ & _ & _ & _ & _
        & _ & _ & _ & Fin & _).
  rewrite Fin. simpl.
  destruct (upsert_employee_own (now e) si sn (employees (tbl db))
              (wf_emp_pkey _ (reachable_wf _ R))) as (c & F & Old & _).
  exists si, sn, c. auto.
Qed.


(** ** Constraints and ids along every run *)

(** Serving a run of requests, each in its own environment. *)
Fixpoint serve_all (steps : list (env * request)) (db : database) : database :=
  match steps with
  | [] => db
  | (e, r) :: steps' => serve_all steps' (final (serve e r db))
  end.

Lemma serve_all_reachable (steps : list (env * request)) (db : database) :
  reachable db -> reachable (serve_all steps db).
Proof.
  revert db. induction steps as [|[e r] steps IH]; simpl; intros db H; [exact H|].
  apply IH. now constructor.
Qed.

(** X7: whatever requests were served, with whatever faults, the stored state
    satisfies the schema's other constraints too: employee ids are unique,
    record ids are unique and below the sequence, and every record refers
    to an employee that exists (no request ever removes an employee). *)
Theorem reachable_constraints (steps : list (env * request)) :
  let db := serve_all steps initial_db in
  NoDup (map emp_id (employees (tbl db)))
  /\ NoDup (map id (attendance_records (tbl db)))
  /\ Forall (fun a => id a < id_seq db) (attendance_records (tbl db))
  /\ Forall (fun a => exists x, In x (employees (tbl db)) /\ emp_id x = rec_emp_id a)
       (attendance_records (tbl db)).
Proof.
  intros db.
  assert (W : wf db) by (apply reachable_wf, serve_all_reachable; constructor).
  destruct W as [E _ P S F]. repeat split; auto.
  eapply Forall_impl; [|exact F]. intros a Ha. simpl in Ha.
  apply in_map_iff in Ha. destruct Ha as (x & Ex & Hx). eauto.
Qed.

Lemma exec_upsert_attendance_ids now p1 p2 p3 p4 t seq r t' seq' a :
  exec now (UpsertAttendance p1 p2 p3 p4) t seq = inr (r, t', seq') ->
  In a (attendance_records t') ->
  In (id a) (map id (attendance_records t)) \/ id a = seq.
Proof.
  unfold exec.
  destruct p1 as [e|]; [|discriminate]; destruct p2 as [n|]; [|discriminate].
  destruct p3 as [ty|]; [|discriminate]; destruct p4 as [ds|]; [|discriminate].
  destruct (date_in ds) as [d|]; [|discriminate].
  destruct (INT4_MAX <? seq); [discriminate|].
  destruct (upsert_attendance now e n ty d seq t) as [err|[ids rows']] eqn:X; [discriminate|].
  intros H; inversion H; subst; clear H. simpl.
  apply upsert_attendance_ok in X.
  destruct X as [(_ & _ & ->) | (_ & _ & _ & _ & ->)]; intros Ha.
  - left. apply in_map_iff in Ha. destruct Ha as (x & <- & Hx).
    rewrite overwrite_id. now apply in_map.
  - apply in_app_or in Ha. destruct Ha as [Ha | [<- | []]]; [left; now apply in_map | now right].
Qed.

(** One request: a record present afterwards has an id that was present
    before or is the sequence value the request found; and the sequence
    does not go back. *)
Lemma serve_ids (e : env) (r : request) (db : database) :
  id_seq db <= id_seq (final (serve e r db))
  /\ forall a, In a (attendance_records (tbl (final (serve e r db)))) ->
               In (id a) (map id (attendance_records (tbl db)))
               \/ (id a = id_seq db /\ id_seq db < id_seq (final (serve e r db))).
Proof.
  split; [destruct (serve_settled e r db) as (resp & _ & _ & _ & _ & L); exact L|].
  intros a.
  destruct (is_get r) eqn:G.
  { destruct (get_route_served e r db G) as (-> & _). intros H. left. now apply in_map. }
  destruct r as [i n | i n ty d | s1 s2 ty | | s | i s1 s2 | | | i | ]; try discriminate G.
  - destruct (truthy i) eqn:Ti; [destruct (truthy n) eqn:Tn|].
    + destruct (truthy_prepareValue _ Ti) as [si Pi].
      destruct (truthy_prepareValue _ Tn) as [sn Pn].
      destruct (post_employees_run e db i n si sn Ti Tn Pi Pn) as [(err & _ & ->) | (_ & ->)];
        simpl; intros H; left; now apply in_map.
    + unfold serve, route, handle, post_employees. rewrite Ti, Tn. simpl.
      intros H; left; now apply in_map.
    + unfold serve, route, handle, post_employees. rewrite Ti. simpl.
      intros H; left; now apply in_map.
  - destruct (negb (truthy i) || negb (truthy n) || negb (truthy ty) || negb (truthy d)) eqn:V.
    + unfold serve, route, handle, post_attendance. rewrite V. simpl.
      intros H; left; now apply in_map.
    + rewrite !orb_false_iff, !negb_false_iff in V. destruct V as [[[Ti Tn] Tty] Td].
      destruct (truthy_prepareValue _ Ti) as [si Pi].
      destruct (truthy_prepareValue _ Tn) as [sn Pn].
      destruct (truthy_prepareValue _ Tty) as [sty Pty].
      destruct (truthy_prepareValue _ Td) as [sd Pd].
      destruct (post_attendance_run e db i n ty d si sn sty sd Ti Tn Tty Td Pi Pn Pty Pd)
        as [(err & _ & ->) | [(err & _ & _ & ->) | (i0 & ids & rows' & _ & _ & X & ->)]];
        simpl; intros H; try (left; now apply in_map).
      destruct (exec_upsert_attendance_ids _ _ _ _ _ _ _ _ _ _ a X H) as [K | K];
        [left; exact K | right; split; [exact K | lia]].
  - destruct (delete_attendance_run e db s) as [(err & _ & ->) | (k & _ & _ & R)].
    + simpl. intros H; left; now apply in_map.
    + cbv zeta in R. rewrite R. simpl. intros H. left.
      apply filter_In in H. now apply in_map.
Qed.

(** X9: ids are never handed out twice: once a record has been deleted with a
    200, no later state, after any further requests and faults, holds a
    record with that id. *)
Theorem deleted_ids_never_return
        (db : database) (e : env) (s : string) (k : Z) (resp : response)
        (steps : list (env * request)) :
  reachable db ->
  int4_in s = Some k ->
  outcome (serve e (DELETE_attendance s) db) = inr resp -> status resp = 200 ->
  ~ In k (map id (attendance_records
                    (tbl (serve_all steps (final (serve e (DELETE_attendance s) db)))))).
Proof.
  intros R I O S.
  assert (Inv : k < id_seq (final (serve e (DELETE_attendance s) db))
                /\ ~ In k (map id (attendance_records
                                     (tbl (final (serve e (DELETE_attendance s) db)))))).
  { pose proof (wf_seq _ (reachable_wf _ R)) as Sq.
    destruct (delete_attendance_run e db s) as [(err & _ & Rn) | (k' & _ & I' & Rn)].
    - rewrite Rn in O. inversion O; subst. discriminate S.
    - rewrite I in I'. inversion I'; subst k'. cbv zeta in Rn. rewrite Rn in O |- *.
      simpl in *.
      destruct (Z.of_nat _ =? 0) eqn:Z0; [inversion O; subst; discriminate S|].
      split.
      + (* a row was removed, and its id was below the sequence *)
        assert (exists x, In x (attendance_records (tbl db)) /\ id x = k) as (x & Hx & Ex).
        { destruct (existsb (fun r => id r =? k) (attendance_records (tbl db))) eqn:Ex.
          - apply existsb_exists in Ex. destruct Ex as (x & Hx & Ex).
            apply Z.eqb_eq in Ex. eauto.
          - exfalso. apply Z.eqb_neq in Z0. apply Z0.
            unfold without_id. rewrite filter_all; [lia|].
            intros x Hx. apply negb_true_iff.
            destruct (id x =? k) eqn:Q; [|reflexivity].
            assert (existsb (fun r => id r =? k) (attendance_records (tbl db)) = true)
              by (apply existsb_exists; eauto).
            congruence. }
        rewrite Forall_forall in Sq. specialize (Sq x Hx). lia.
      + intros C. apply in_map_iff in C. destruct C as (y & Iy & Hy).
        apply filter_In in Hy. destruct Hy as [_ Hy].
        rewrite Iy, Z.eqb_refl in Hy. discriminate. }
  revert Inv. generalize (final (serve e (DELETE_attendance s) db)). clear.
  induction steps as [|[e r] steps IH]; simpl; intros db [L N]; [exact N|].
  apply IH. destruct (serve_ids e r db) as [Mono Ids]. split; [lia|].
  intros C. apply in_map_iff in C. destruct C as (a & Ia & Ha).
  destruct (Ids a Ha) as [K | [K _]]; [rewrite Ia in K; contradiction | lia].
Qed.

(** X8: the id a successful attendance upsert returns: for a new (employee,
    date) it is the sequence value, larger than every id stored, and the
    table grows by one row; for a key already present it is the id of the
    stored row and the table keeps its size.  Either way the sequence
    advances: an overwrite leaves a gap in the ids. *)
Theorem returned_id (db : database) (e : env) (i n ty d : jsval) (m : string) (i1 : Z) :
  reachable db ->
  let r := serve e (POST_attendance i n ty d) db in
  outcome r = inr (mkResponse 200 (AttendanceAdded m i1)) ->
  exists si sd dd,
    prepareValue i = Some si /\ prepareValue d = Some sd /\ date_in sd = Some dd
    /\ id_seq (final r) = id_seq db + 1
    /\ (~ In (si, dd) (map key (attendance_records (tbl db))) ->
        i1 = id_seq db
        /\ Forall (fun a => id a < i1) (attendance_records (tbl db))
        /\ List.length (attendance_records (tbl (final r)))
           = S (List.length (attendance_records (tbl db))))
    /\ (In (si, dd) (map key (attendance_records (tbl db))) ->
        (exists a, In a (attendance_records (tbl db)) /\ key a = (si, dd) /\ id a = i1)
        /\ List.length (attendance_records (tbl (final r)))
           = List.length (attendance_records (tbl db))).
Proof.
  intros R r O.
  pose proof (wf_seq _ (reachable_wf _ R)) as Sq.
  destruct (post_attendance_200 _ _ _ _ _ _ _ _ O)
    as (si & sn & sty & sd & dd & ids & rows' & Pi & _ & _ & Pd & _ & _ & _ & _
        & D & _ & U & Fin & _).
  fold r in Fin. exists si, sd, dd. rewrite Fin. simpl.
  apply upsert_attendance_ok in U. simpl in U.
  destruct U as [(K & I & ->) | (K & _ & _ & I & ->)];
    repeat split; auto; try (intros; contradiction).
  - destruct (filter (key_eqb si dd) (attendance_records (tbl db))) as [|x l] eqn:Fx;
      [discriminate I|].
    assert (Hx : In x (filter (key_eqb si dd) (attendance_records (tbl db))))
      by (rewrite Fx; now left).
    apply filter_In in Hx. destruct Hx as [Hx Kx]. apply key_eqb_spec in Kx.
    exists x. repeat split; auto. now inversion I.
  - apply length_map.
  - now inversion I.
  - inversion I; subst. exact Sq.
  - rewrite length_app. simpl. lia.
Qed.

(** X10: deleting the same id again: after a 200 the repeated delete, if the
    engine runs it, answers 404 and changes nothing. *)
Theorem delete_again_is_not_found (e1 e2 : env) (db : database) (s : string) (resp : response) :
  outcome (serve e1 (DELETE_attendance s) db) = inr resp -> status resp = 200 ->
  fault e2 0%nat = None ->
  let db1 := final (serve e1 (DELETE_attendance s) db) in
  outcome (serve e2 (DELETE_attendance s) db1)
    = inr (mkResponse 404 (ErrorBody "Record not found"))
  /\ final (serve e2 (DELETE_attendance s) db1) = db1.
Proof.
  intros O S F db1. subst db1.
  destruct (delete_attendance_run e1 db s) as [(err & _ & Rn) | (k & _ & I & Rn)].
  { rewrite Rn in O. inversion O; subst. discriminate S. }
  cbv zeta in Rn. rewrite Rn. simpl.
  destruct (delete_attendance_run e2
              (mkDatabase (mkTables (employees (tbl db))
                             (without_id k (attendance_records (tbl db)))) (id_seq db)) s)
    as [(err & [C | (_ & C & _)] & _) | (k' & _ & I' & Rn')]; try congruence.
  rewrite I in I'. inversion I'; subst k'. cbv zeta in Rn'. rewrite Rn'. simpl.
  assert (Idem : without_id k (without_id k (attendance_records (tbl db)))
                 = without_id k (attendance_records (tbl db))).
  { unfold without_id. apply filter_all. intros x Hx. apply filter_In in Hx. apply Hx. }
  rewrite Idem, Nat.sub_diag. simpl. auto.
Qed.


(** ** The remaining listings, and reading back what was written *)

(** X11: [GET /attendance/:emp_id]: exactly the records of that employee, each
    once, latest date first; an employee without records, or an unknown
    one, gets 200 with an empty list, not 404. *)
Theorem list_by_employee (e : env) (db : database) (emp : string) :
  fault e 0%nat = None ->
  let r := serve e (GET_attendance_of emp) db in
  exists rows,
    outcome r = inr (mkResponse 200 (RowsBody rows))
    /\ Permutation rows
         (filter (fun a => (rec_emp_id a =? emp)%string) (attendance_records (tbl db)))
    /\ (forall a, In a rows <-> In a (attendance_records (tbl db)) /\ rec_emp_id a = emp)
    /\ StronglySorted (fun a b => date b <= date a) rows
    /\ (~ In emp (map rec_emp_id (attendance_records (tbl db))) -> rows = []).
Proof.
  intros F r.
  set (sel := fun a => (rec_emp_id a =? emp)%string).
  exists (order_by by_date_desc (filter sel (attendance_records (tbl db)))).
  split; [|split; [|split; [|split]]].
  - subst r. unfold serve, route, handle, get_attendance_of.
    cbv [bind try_catch query ret logged current visible txn seqv log List.length].
    rewrite F. reflexivity.
  - apply order_by_perm.
  - intros a. split.
    + intros H. apply (Permutation_in _ (order_by_perm _ _)) in H.
      apply filter_In in H. destruct H as [H S]. unfold sel in S.
      apply String.eqb_eq in S. tauto.
    + intros (H & E). apply (Permutation_in _ (Permutation_sym (order_by_perm _ _))).
      apply filter_In. split; [assumption|]. unfold sel. now apply String.eqb_eq.
  - apply Sorted_StronglySorted.
    + intros a b c. lia.
    + apply (Sorted_weaken (fun a b => by_date_desc a b = true)).
      * intros a b H. unfold by_date_desc in H. now apply Z.leb_le.
      * apply order_by_sorted, by_date_desc_total.
  - intros N. rewrite filter_none; [reflexivity|].
    intros a Ha. unfold sel. apply String.eqb_neq. intros E. apply N.
    rewrite <- E. now apply in_map.
Qed.

(** X12: [GET /employees]: every employee, each once, ordered by name in the
    collation. *)
Theorem list_employees (e : env) (db : database) :
  total text_leb ->
  fault e 0%nat = None ->
  let r := serve e GET_employees db in
  exists rows,
    outcome r = inr (mkResponse 200 (EmployeesBody rows))
    /\ Permutation rows (employees (tbl db))
    /\ Sorted (fun a b => text_leb (name a) (name b) = true) rows.
Proof.
  intros T F r.
  exists (order_by (fun a b => text_leb (name a) (name b)) (employees (tbl db))).
  split; [|split].
  - subst r. unfold serve, route, handle, get_employees.
    cbv [bind try_catch query ret logged current visible txn seqv log List.length].
    rewrite F. reflexivity.
  - apply order_by_perm.
  - apply (order_by_sorted (fun a b => text_leb (name a) (name b))).
    intros a b. apply T.
Qed.

(** [GET /health]: 200 with status OK exactly when the probe statement
    goes through; otherwise 500 with status ERROR and the engine's
    message. *)
Theorem health_reports_the_probe (e : env) (db : database) :
  let r := serve e GET_health db in
  match fault e 0%nat with
  | None => outcome r = inr (mkResponse 200 (HealthBody "OK" None))
  | Some err => outcome r = inr (mkResponse 500 (HealthBody "ERROR" (Some err)))
  end
  /\ map e_stmt (statements r) = [SelectNow].
Proof.
  intros r. subst r. unfold serve, route, handle, get_health.
  cbv [bind try_catch query ret logged current visible txn seqv log List.length].
  destruct (fault e 0%nat); simpl; auto.
Qed.

Lemma upsert_attendance_row now e n ty d newid t i1 ids rows' :
  upsert_attendance now e n ty d newid t = inr (i1 :: ids, rows') ->
  In (mkAttendance i1 e n ty d now) rows'.
Proof.
  intros X. apply upsert_attendance_ok in X.
  destruct X as [(_ & I & ->) | (_ & _ & _ & I & ->)].
  - destruct (filter (key_eqb e d) (attendance_records t)) as [|x l] eqn:Fx; [discriminate I|].
    assert (Hx : In x (filter (key_eqb e d) (attendance_records t))) by (rewrite Fx; now left).
    apply filter_In in Hx. destruct Hx as [Hx Kx].
    apply in_map_iff. exists x. split; [|assumption].
    unfold overwrite. rewrite Kx. apply key_eqb_spec in Kx. inversion Kx.
    inversion I. reflexivity.
  - inversion I; subst. apply in_or_app. right. now left.
Qed.

Lemma upsert_employee_In now i n es :
  exists c, In (mkEmployee i n c now) (upsert_employee now i n es).
Proof.
  unfold upsert_employee.
  destruct (existsb (fun e0 => (emp_id e0 =? i)%string) es) eqn:E.
  - apply existsb_exists in E. destruct E as (x & Hx & Ex).
    exists (created_at x). apply in_map_iff. exists x. split; [|assumption].
    rewrite Ex. apply String.eqb_eq in Ex. now rewrite Ex.
  - exists now. apply in_or_app. right. now left.
Qed.

(** X13: write, then read back.  After a 200 from [POST /attendance] the
    employee's listing contains the record under the returned id with the
    posted name, type and date and the request's clock; after a 200 from
    [POST /employees] the employee listing contains the employee under the
    posted name. *)
Theorem written_is_read_back (e1 e2 : env) (db : database) :
  fault e2 0%nat = None ->
  (forall i n ty d m i1,
      outcome (serve e1 (POST_attendance i n ty d) db)
        = inr (mkResponse 200 (AttendanceAdded m i1)) ->
      exists si sn sty sd dd rows,
        prepareValue i = Some si /\ prepareValue n = Some sn
        /\ prepareValue ty = Some sty /\ prepareValue d = Some sd /\ date_in sd = Some dd
        /\ outcome (serve e2 (GET_attendance_of si) (final (serve e1 (POST_attendance i n ty d) db)))
           = inr (mkResponse 200 (RowsBody rows))
        /\ In (mkAttendance i1 si sn sty dd (now e1)) rows)
  /\
  (forall i n resp,
      outcome (serve e1 (POST_employees i n) db) = inr resp -> status resp = 200 ->
      exists si sn c rows,
        prepareValue i = Some si /\ prepareValue n = Some sn
        /\ outcome (serve e2 GET_employees (final (serve e1 (POST_employees i n) db)))
           = inr (mkResponse 200 (EmployeesBody rows))
        /\ In (mkEmployee si sn c (now e1)) rows).
Proof.
  intros F. split.
  - intros i n ty d m i1 O.
    destruct (post_attendance_200 _ _ _ _ _ _ _ _ O)
      as (si & sn & sty & sd & dd & ids & rows' & Pi & Pn & Pty & Pd & _ & _ & _ & _
          & D & _ & U & Fin & _).
    apply upsert_attendance_row in U.
    exists si, sn, sty, sd, dd.
    exists (order_by by_date_desc (filter (fun a => (rec_emp_id a =? si)%string) rows')).
    repeat split; auto.
    + rewrite Fin. unfold serve, route, handle, get_attendance_of.
      cbv [bind try_catch query ret logged current visible txn seqv log List.length].
      rewrite F. reflexivity.
    + apply (Permutation_in _ (Permutation_sym (order_by_perm _ _))).
      apply filter_In. split; [exact U|]. simpl. apply String.eqb_refl.
  - intros i n resp O S.
    destruct (truthy i) eqn:Ti; [destruct (truthy n) eqn:Tn|].
    + destruct (truthy_prepareValue _ Ti) as [si Pi].
      destruct (truthy_prepareValue _ Tn) as [sn Pn].
      destruct (post_employees_run e1 db i n si sn Ti Tn Pi Pn) as [(err & _ & Rn) | (_ & Rn)];
        rewrite Rn in O |- *; simpl in *.
      * inversion O; subst. discriminate S.
      * destruct (upsert_employee_In (now e1) si sn (employees (tbl db))) as [c Hc].
        exists si, sn, c.
        exists (order_by (fun a b => text_leb (name a) (name b))
                  (upsert_employee (now e1) si sn (employees (tbl db)))).
        repeat split; auto.
        -- unfold serve, route, handle, get_employees.
           cbv [bind try_catch query ret logged current visible txn seqv log List.length].
           rewrite F. reflexivity.
        -- apply (Permutation_in _ (Permutation_sym (order_by_perm _ _))). exact Hc.
    + unfold serve, route, handle, post_employees in O. rewrite Ti, Tn in O. simpl in O.
      inversion O; subst. discriminate S.
    + unfold serve, route, handle, post_employees in O. rewrite Ti in O. simpl in O.
      inversion O; subst. discriminate S.
Qed.

End Engine.

(** ** Worked examples on the reference engine *)

Definition iso_serve : env -> request -> database -> served :=
  serve iso_date_in dec_int4_in String.leb.

Definition iso_reachable : database -> Prop :=
  reachable iso_date_in dec_int4_in String.leb.

(** Serve the requests in turn, each at its own clock, with no engine
    fault. *)
Fixpoint replay (reqs : list (Z * request)) (db : database) : database :=
  match reqs with
  | [] => db
  | (t, r) :: reqs' => replay reqs' (final (iso_serve (healthy t) r db))
  end.

Definition E1_wfo : request :=
  POST_attendance (JStr "E1") (JStr "Alice") (JStr "WFO") (JStr "2024-01-10").

Definition E1_wfh : request :=
  POST_attendance (JStr "E1") (JStr "Alicia") (JStr "WFH") (JStr "2024-01-10").

Definition E2_bad_date : request :=
  POST_attendance (JStr "E2") (JStr "Bob") (JStr "WFH") (JStr "not-a-date").

Definition db1 : database := replay [(100, E1_wfo)] initial_db.

Definition db2 : database := replay [(200, E1_wfh)] db1.

Definition db5 : database :=
  replay [(300, POST_attendance (JStr "E2") (JStr "Bob") (JStr "WFO") (JStr "2024-01-11"));
          (400, POST_attendance (JStr "E1") (JStr "Alicia") (JStr "WFO") (JStr "2024-01-12"));
          (500, POST_attendance (JStr "E3") (JStr "Carol") (JStr "WFH") (JStr "2024-01-11"))]
    db2.

Lemma replay_reachable (reqs : list (Z * request)) (db : database) :
  iso_reachable db -> iso_reachable (replay reqs db).
Proof.
  revert db. induction reqs as [|[t r] reqs IH]; simpl; intros db H; [exact H|].
  apply IH. now constructor.
Defined.

Lemma db5_reachable : iso_reachable db5.
Proof. repeat apply replay_reachable. constructor. Defined.

Definition ADDED : string := "Attendance record added successfully".

(** C1 at work.  Bob's record carries a date the engine rejects: his
    employee row, already upserted inside the transaction, is rolled back
    with it.  Alice's first record goes through: employee and record
    appear together. *)
Lemma attendance_upsert_is_atomic_witness :
  (let r := iso_serve (healthy 250) E2_bad_date db2 in
   outcome r = inr (mkResponse 500 (ErrorBody ERR_DATE)) /\ final r = db2)
  /\
  (let r := iso_serve (healthy 100) E1_wfo initial_db in
   outcome r = inr (mkResponse 200 (AttendanceAdded ADDED 1))
   /\ map e_visible (statements r) = [tbl initial_db; tbl initial_db; tbl initial_db; tbl db1]).
Proof.
  split.
  - destruct (attendance_upsert_is_atomic iso_date_in dec_int4_in String.leb
                (healthy 250) db2 (JStr "E2") (JStr "Bob") (JStr "WFH") (JStr "not-a-date")
                eq_refl eq_refl eq_refl eq_refl) as [H _].
    destruct (H (mkEntry (UpsertAttendance (Some "E2") (Some "Bob") (Some "WFH") (Some "not-a-date"))
                   (Some ERR_DATE) (tbl db2)) ERR_DATE) as (O & Fn & _).
    + vm_compute. right; right; left; reflexivity.
    + reflexivity.
    + split; [exact O | exact Fn].
  - destruct (attendance_upsert_is_atomic iso_date_in dec_int4_in String.leb
                (healthy 100) initial_db (JStr "E1") (JStr "Alice") (JStr "WFO")
                (JStr "2024-01-10") eq_refl eq_refl eq_refl eq_refl) as [_ H].
    destruct H as (i0 & ids & t1 & t2 & O & _ & _ & Fn & _ & V & _).
    + vm_compute. intros en [<- | [<- | [<- | [<- | []]]]]; reflexivity.
    + split; [|reflexivity].
      pose proof O as O'. vm_compute in O'. injection O' as <-. exact O.
Defined.

(** C2 at work: the second upsert for E1 on 2024-01-10 answers with id 1
    again and leaves one record. *)
Lemma one_record_per_employee_and_date_witness :
  outcome (iso_serve (healthy 200) E1_wfh db1) = inr (mkResponse 200 (AttendanceAdded ADDED 1))
  /\ List.length (attendance_records (tbl db2)) = 1%nat.
Proof.
  assert (L : id_seq (final (iso_serve (healthy 100) E1_wfo initial_db)) <= INT4_MAX)
    by (vm_compute; discriminate).
  destruct (proj2 (one_record_per_employee_and_date iso_date_in dec_int4_in String.leb)
              initial_db (healthy 100) (healthy 200) (JStr "E1") (JStr "2024-01-10")
              (JStr "Alice") (JStr "WFO") (JStr "Alicia") (JStr "WFH") ADDED 1
              (reachable_initial _ _ _) eq_refl eq_refl eq_refl eq_refl eq_refl L)
    as (si & sd & dd & sn2 & sty2 & _ & _ & _ & _ & _ & O & Len & _).
  split; [exact O|]. exact Len.
Defined.

(** C3 at work: the first write for E1 is answered 200 and creates the
    employee; sent without the employee upsert, the record upsert is
    rejected by the foreign key. *)
Lemma attendance_upsert_creates_the_employee_witness :
  outcome (iso_serve (healthy 100) E1_wfo initial_db)
  = inr (mkResponse 200 (AttendanceAdded ADDED 1))
  /\ db1 = mkDatabase (mkTables [mkEmployee "E1" "Alice" 100 100]
                         [mkAttendance 1 "E1" "Alice" "WFO" 19732 100]) 2
  /\ exec iso_date_in dec_int4_in String.leb 100
       (UpsertAttendance (Some "E1") (Some "Alice") (Some "WFO") (Some "2024-01-10"))
       (tbl initial_db) 1
     = inl ERR_FKEY.
Proof.
  destruct (proj2 (attendance_upsert_creates_the_employee iso_date_in dec_int4_in String.leb)
              initial_db (healthy 100) (JStr "E1") (JStr "Alice") (JStr "WFO")
              (JStr "2024-01-10") "E1" "Alice" "WFO" "2024-01-10" 19732
              (reachable_initial _ _ _) eq_refl eq_refl eq_refl eq_refl
              eq_refl eq_refl eq_refl eq_refl eq_refl eq_refl eq_refl)
    as (O & _ & Fin & Rejected & _).
  - vm_compute. discriminate.
  - intros [].
  - split; [exact O|]. split; [exact Fin | exact Rejected].
Defined.

(** C4 at work: the second of two identical employee upserts moves
    [updated_at] and nothing else. *)
Lemma employee_upsert_twice_witness :
  let post := POST_employees (JStr "E1") (JStr "Alice") in
  let once := final (iso_serve (healthy 100) post initial_db) in
  let twice := final (iso_serve (healthy 200) post once) in
  employees (tbl once) = [mkEmployee "E1" "Alice" 100 100]
  /\ employees (tbl twice) = [mkEmployee "E1" "Alice" 100 200].
Proof.
  destruct (employee_upsert_twice iso_date_in dec_int4_in String.leb
              initial_db (healthy 100) (healthy 200) (JStr "E1") (JStr "Alice") (JStr "Alice")
              eq_refl eq_refl eq_refl eq_refl eq_refl)
    as (si & sn2 & Pi & _ & T & _).
  injection Pi as <-.
  split; [reflexivity|]. exact T.
Defined.

(** C4, counterexample to plain idempotence: after two identical upserts
    at clocks 100 and 200 the employees table is not the one after the
    first call, nor the one a single call at any clock would leave. *)
Lemma employee_upsert_twice_is_not_once :
  let post := POST_employees (JStr "E1") (JStr "Alice") in
  let once := final (iso_serve (healthy 100) post initial_db) in
  let twice := final (iso_serve (healthy 200) post once) in
  employees (tbl twice) <> employees (tbl once)
  /\ ~ (exists t, employees (tbl twice)
                  = employees (tbl (final (iso_serve (healthy t) post initial_db)))).
Proof.
  split.
  - vm_compute. discriminate.
  - intros [t H]. vm_compute in H. injection H as H1 H2. congruence.
Qed.

(** C5 at work: from 2024-01-11 on, any type. *)
Lemma list_filtered_witness :
  exists rows,
    outcome (iso_serve (healthy 600) (GET_attendance (JStr "2024-01-11") JUndefined JNull) db5)
    = inr (mkResponse 200 (RowsBody rows))
    /\ map id rows = [4; 3; 5].
Proof.
  destruct (list_filtered iso_date_in dec_int4_in String.leb (healthy 600) db5
              (JStr "2024-01-11") JUndefined JNull (Some 19733) None
              String.leb_total eq_refl eq_refl eq_refl)
    as (rows & O & _).
  exists rows. split; [exact O|].
  vm_compute in O. injection O as <-. reflexivity.
Defined.

(** C6 at work. *)
Lemma stats_consistent_witness :
  exists groups,
    outcome (iso_serve (healthy 600) GET_stats db5)
    = inr (mkResponse 200 (StatsBody (Some 3) (Some 4) (Some 2) (Some 2) groups))
    /\ sum_counts groups = 4.
Proof.
  destruct (stats_consistent iso_date_in dec_int4_in String.leb (healthy 600) db5
              (fun _ => eq_refl))
    as (te & tr & wfo & wfh & groups & O & _ & _ & S & _).
  pose proof O as O'. vm_compute in O'. injection O' as <- <- <- <- <-.
  exists [("WFH", "2"); ("WFO", "2")].
  split; [exact O | symmetry; exact S].
Defined.

(** What the reference engine reads as an [INTEGER] lies within 32 bits. *)
Lemma dec_int4_in_range (s : string) (k : Z) :
  dec_int4_in s = Some k -> - INT4_MAX - 1 <= k <= INT4_MAX.
Proof.
  assert (R : forall n,
             (if (- INT4_MAX - 1 <=? n) && (n <=? INT4_MAX) then Some n else None) = Some k ->
             - INT4_MAX - 1 <= k <= INT4_MAX).
  { intros n. destruct ((- INT4_MAX - 1 <=? n) && (n <=? INT4_MAX)) eqn:B; [|discriminate].
    intros H. inversion H; subst. apply andb_true_iff in B. lia. }
  unfold dec_int4_in. destruct s as [|c s]; [discriminate|].
  destruct (Ascii.eqb_spec c "-"%char) as [->|Ne].
  - destruct s as [|c' s']; [discriminate|].
    destruct (digits (String c' s') 0) as [n|]; [apply R | discriminate].
  - destruct c as [[] [] [] [] [] [] [] []];
      try (exfalso; apply Ne; reflexivity);
      (destruct (digits (String _ s) 0) as [n|]; [apply R | discriminate]).
Qed.

(** C7 at work: record 3 goes, a second delete finds nothing, and an id
    one past the largest 32-bit integer is rejected. *)
Lemma delete_by_id_witness :
  let r := iso_serve (healthy 600) (DELETE_attendance "3") db5 in
  outcome r = inr (mkResponse 200 (MessageBody "Record deleted successfully"))
  /\ map id (attendance_records (tbl (final r))) = [1; 4; 5]
  /\ outcome (iso_serve (healthy 700) (DELETE_attendance "3") (final r))
     = inr (mkResponse 404 (ErrorBody "Record not found"))
  /\ outcome (iso_serve (healthy 800) (DELETE_attendance "2147483648") db5)
     = inr (mkResponse 500 (ErrorBody ERR_INTEGER)).
Proof.
  destruct (delete_by_id iso_date_in dec_int4_in String.leb (healthy 600) db5 "3"
              eq_refl) as [H _].
  destruct (H 3 eq_refl) as [Found _].
  destruct Found as (O & A & _).
  - vm_compute. right; left; reflexivity.
  - split; [exact O|]. split; [reflexivity|]. split.
    + destruct (delete_by_id iso_date_in dec_int4_in String.leb (healthy 700)
                  (final (iso_serve (healthy 600) (DELETE_attendance "3") db5)) "3"
                  eq_refl) as [G _].
      destruct (G 3 eq_refl) as [_ Absent].
      apply Absent. vm_compute. intros [C | [C | [C | []]]]; discriminate C.
    + destruct (delete_by_id iso_date_in dec_int4_in String.leb (healthy 800) db5
                  "2147483648" eq_refl) as [_ G].
      apply G. reflexivity.
Defined.

(** C8 at work: an attendance request without a date. *)
Lemma validation_rejects_before_any_statement_witness :
  let r := iso_serve (healthy 600)
             (POST_attendance (JStr "E9") (JStr "Zed") (JStr "WFO") JUndefined) db5 in
  outcome r = inr (mkResponse 400 (ErrorBody "All fields are required"))
  /\ statements r = [] /\ final r = db5.
Proof.
  destruct (proj2 (validation_rejects_before_any_statement iso_date_in dec_int4_in String.leb
                     (healthy 600) db5)
              (JStr "E9") (JStr "Zed") (JStr "WFO") JUndefined)
    as (O & S & Fn & _).
  - right; right; right. left. reflexivity.
  - auto.
Defined.

(** C9 at work. *)
Lemma list_range_witness :
  exists rows,
    outcome (iso_serve (healthy 600) (GET_attendance_range "E1" "2024-01-10" "2024-01-12") db5)
    = inr (mkResponse 200 (RowsBody rows))
    /\ map id rows = [4; 1].
Proof.
  destruct (list_range iso_date_in dec_int4_in String.leb (healthy 600) db5
              "E1" "2024-01-10" "2024-01-12" 19732 19734 eq_refl eq_refl eq_refl)
    as (rows & O & _).
  exists rows. split; [exact O|].
  vm_compute in O. injection O as <-. reflexivity.
Defined.

(** C10 at work: overwriting Bob's record leaves the other three alone. *)
Lemma attendance_upsert_frame_witness :
  let r := iso_serve (healthy 600)
             (POST_attendance (JStr "E2") (JStr "Robert") (JStr "WFH") (JStr "2024-01-11")) db5 in
  filter (fun a => negb (key_eqb "E2" 19733 a)) (attendance_records (tbl (final r)))
  = filter (fun a => negb (key_eqb "E2" 19733 a)) (attendance_records (tbl db5))
  /\ filter (fun x => negb (emp_id x =? "E2")%string) (employees (tbl (final r)))
     = filter (fun x => negb (emp_id x =? "E2")%string) (employees (tbl db5)).
Proof.
  destruct (attendance_upsert_frame iso_date_in dec_int4_in String.leb db5 (healthy 600)
              (JStr "E2") (JStr "Robert") (JStr "WFH") (JStr "2024-01-11") ADDED 3
              db5_reachable eq_refl)
    as (si & sd & dd & Pi & Pd & D & FE & FA & _).
  injection Pi as <-. injection Pd as <-. injection D as <-.
  split; [exact FA | exact FE].
Defined.

(** ** Parameters the engine rejects *)

(** C7, counterexample for ids of any text: no record of [db5] has the id
    [abc], yet the delete is not answered 404: the engine rejects the text
    as an integer and the handler answers 500. *)
Lemma delete_of_a_non_integer_id_is_not_404 :
  let r := iso_serve (healthy 600) (DELETE_attendance "abc") db5 in
  Forall (fun a => dec_int4_in "abc" <> Some (id a)) (attendance_records (tbl db5))
  /\ outcome r = inr (mkResponse 500 (ErrorBody ERR_INTEGER))
  /\ outcome r <> inr (mkResponse 404 (ErrorBody "Record not found"))
  /\ final r = db5.
Proof.
  split; [|split; [|split]].
  - repeat constructor; discriminate.
  - reflexivity.
  - vm_compute. discriminate.
  - reflexivity.
Qed.

(** C5, counterexample for filters of any text: a start date is provided
    but is no date; the listing answers 500 and returns no rows at all. *)
Lemma listing_with_a_non_date_filter_returns_no_rows :
  let r := iso_serve (healthy 600) (GET_attendance (JStr "not-a-date") JUndefined JUndefined) db5 in
  outcome r = inr (mkResponse 500 (ErrorBody ERR_DATE))
  /\ (forall rows, outcome r <> inr (mkResponse 200 (RowsBody rows)))
  /\ final r = db5.
Proof.
  split; [|split].
  - reflexivity.
  - intros rows. vm_compute. discriminate.
  - reflexivity.
Qed.

(** A conflicting upsert still draws from the sequence: ids have gaps. *)
Example conflict_consumes_a_sequence_value :
  id_seq db1 = 2 /\ id_seq db2 = 3 /\ map id (attendance_records (tbl db2)) = [1].
Proof. repeat split; reflexivity. Qed.

(** * The CORS policy of [server.js] and its error handler *)

(** ** The pattern among the allowed origins *)

(** The regular expressions the allow-list needs: literal characters,
    [.], [.*], sequencing and [$]. *)
Inductive re : Type :=
| Chr (c : ascii)
| Dot
| DotStar
| Cat (r1 r2 : re)
| Eol.

(** [.] matches any character but a line terminator; a header value is a
    string of 8-bit characters, where those are LF and CR. *)
Definition line_terminator (c : ascii) : bool :=
  (nat_of_ascii c =? 10)%nat || (nat_of_ascii c =? 13)%nat.

(** The remainders [.*] can leave, longest match last. *)
Fixpoint dotstar (s : string) : list string :=
  s :: match s with
       | EmptyString => []
       | String c s' => if line_terminator c then [] else dotstar s'
       end.

(** [run r s]: every remainder of [s] after a match of [r] at its start. *)
Fixpoint run (r : re) (s : string) : list string :=
  match r with
  | Chr c =>
      match s with
      | String c' s' => if Ascii.eqb c c' then [s'] else []
      | EmptyString => []
      end
  | Dot =>
      match s with
      | String c' s' => if line_terminator c' then [] else [s']
      | EmptyString => []
      end
  | DotStar => dotstar s
  | Cat r1 r2 => flat_map (run r2) (run r1 s)
  | Eol =>
      match s with
      | EmptyString => [EmptyString]
      | _ => []
      end
  end.

(** [regex.test(s)] for a pattern without flags: a match may start at any
    position. *)
Fixpoint test (r : re) (s : string) : bool :=
  match run r s with
  | _ :: _ => true
  | [] =>
      match s with
      | EmptyString => false
      | String _ s' => test r s'
      end
  end.

Fixpoint lit (w : string) (k : re) : re :=
  match w with
  | EmptyString => k
  | String c w' => Cat (Chr c) (lit w' k)
  end.

(** [/https:\/\/.*\.vercel\.app$/]. *)
Definition vercel_pattern : re :=
  lit "https://" (Cat DotStar (lit ".vercel.app" Eol)).

(** ** The origin check *)

Inductive allowed_origin : Type :=
| Exact (s : option string)
| Pattern (r : re).

(** [allowedOrigins]; the fourth entry is [process.env.FRONTEND_URL],
    [undefined] ([None]) when the variable is not set. *)
Definition allowedOrigins (FRONTEND_URL : option string) : list allowed_origin :=
  [ Exact (Some "http://localhost:5173");
    Exact (Some "http://localhost:3000");
    Exact (Some "https://front-end-server-mz4as6cxr-yashwanths-projects-7a956bf7.vercel.app");
    Exact FRONTEND_URL;
    Pattern vercel_pattern ].

Definition CORS_MESSAGE : string :=
  "The CORS policy for this site does not allow access from the specified Origin: ".

(** The [origin] callback of the CORS middleware: [inr tt] is
    [callback(null, true)], [inl msg] is [callback(new Error(msg), false)].
    The header is [None] when absent. *)
Definition cors_origin (FRONTEND_URL : option string) (origin : option string)
  : string + unit :=
  match origin with
  | None => inr tt
  | Some EmptyString => inr tt
  | Some o =>
      if existsb (fun a => match a with
                           | Pattern r => test r o
                           | Exact (Some s) => (s =? o)%string
                           | Exact None => false
                           end) (allowedOrigins FRONTEND_URL)
      then inr tt
      else inl (CORS_MESSAGE ++ o)%string
  end.

(** ** The global error handler *)

Record js_error : Type := mkError {
  message : string;
  code : option string
}.

(** [hay.includes(needle)]. *)
Fixpoint includes (needle hay : string) : bool :=
  if prefix needle hay then true
  else match hay with
       | EmptyString => false
       | String _ hay' => includes needle hay'
       end.

Inductive error_body : Type :=
| CorsError (message : string) (origin : option string)
| DatabaseConnectionFailed
| InternalServerError.

Definition error_handler (err : js_error) (origin : option string) : Z * error_body :=
  if includes "CORS policy" (message err)
  then (403, CorsError (message err) origin)
  else match code err with
       | Some "ECONNREFUSED" => (503, DatabaseConnectionFailed)
       | _ => (500, InternalServerError)
       end.

(** The CORS middleware in front of the error handler: an allowed request
    goes on ([None]); a refused one is answered by the error handler. *)
Definition cors_gate (FRONTEND_URL origin : option string) : option (Z * error_body) :=
  match cors_origin FRONTEND_URL origin with
  | inr _ => None
  | inl msg => Some (error_handler (mkError msg None) origin)
  end.

(** ** What the pattern matches *)

Fixpoint plain (m : string) : bool :=
  match m with
  | EmptyString => true
  | String c m' => negb (line_terminator c) && plain m'
  end.

(** [den r s rem]: [r] matches at the start of [s] and leaves [rem]. *)
Fixpoint den (r : re) (s rem : string) : Prop :=
  match r with
  | Chr c => s = String c rem
  | Dot => exists c, s = String c rem /\ line_terminator c = false
  | DotStar => exists m, s = (m ++ rem)%string /\ plain m = true
  | Cat r1 r2 => exists mid, den r1 s mid /\ den r2 mid rem
  | Eol => s = EmptyString /\ rem = EmptyString
  end.

Lemma append_assoc (a b c : string) : ((a ++ b) ++ c = a ++ (b ++ c))%string.
Proof. induction a as [|x a IH]; simpl; [reflexivity | now rewrite IH]. Qed.

Lemma prefix_spec (w s : string) : prefix w s = true <-> exists t, s = (w ++ t)%string.
Proof.
  revert s. induction w as [|a w IH]; intros s.
  - simpl. destruct s; split; eauto.
  - destruct s as [|b s]; simpl.
    + split; [discriminate | intros [t H]; discriminate H].
    + destruct (ascii_dec a b) as [E|N].
      * split.
        -- intros H. apply IH in H. destruct H as [t H]. exists t. now rewrite E, H.
        -- intros [t H]. inversion H. apply IH. now exists t.
      * split; [discriminate | intros [t H]; inversion H; congruence].
Qed.

Lemma includes_unfold (w s : string) :
  includes w s
  = if prefix w s then true
    else match s with
         | EmptyString => false
         | String _ s' => includes w s'
         end.
Proof. destruct s; reflexivity. Qed.

Lemma includes_spec (w s : string) :
  includes w s = true <-> exists a b, s = (a ++ w ++ b)%string.
Proof.
  induction s as [|c s IH]; rewrite includes_unfold.
  - destruct (prefix w EmptyString) eqn:P.
    + split; [intros _|reflexivity]. apply prefix_spec in P. destruct P as [t P].
      exists EmptyString, t. exact P.
    + split; [discriminate|]. intros (a & b & H).
      destruct a; [|discriminate H]. simpl in H.
      assert (prefix w EmptyString = true) by (apply prefix_spec; eauto). congruence.
  - destruct (prefix w (String c s)) eqn:P.
    + split; [intros _|reflexivity]. apply prefix_spec in P. destruct P as [t P].
      exists EmptyString, t. exact P.
    + split.
      * intros H. apply IH in H. destruct H as (a & b & ->).
        exists (String c a), b. reflexivity.
      * intros (a & b & H). destruct a as [|x a]; simpl in H.
        -- assert (prefix w (String c s) = true) by (apply prefix_spec; eauto). congruence.
        -- injection H as _ Hs. apply IH. exists a, b. exact Hs.
Qed.

Lemma dotstar_spec (s rem : string) :
  In rem (dotstar s) <-> exists m, s = (m ++ rem)%string /\ plain m = true.
Proof.
  induction s as [|c s IH].
  - simpl. split.
    + intros [<- | []]. exists EmptyString. auto.
    + intros (m & H & _). destruct m; [|discriminate H]. now left.
  - change (dotstar (String c s))
      with (String c s :: (if line_terminator c then [] else dotstar s)).
    split.
    + intros [<- | H]; [exists EmptyString; auto|].
      destruct (line_terminator c) eqn:L; [contradiction|].
      apply IH in H. destruct H as (m & -> & P).
      exists (String c m). simpl. rewrite L. auto.
    + intros (m & H & P). destruct m as [|x m]; simpl in H.
      * left. now symmetry.
      * inversion H; subst. simpl in P. apply andb_true_iff in P. destruct P as [Lx P].
        apply negb_true_iff in Lx. right. rewrite Lx. apply IH. eauto.
Qed.

Lemma run_spec (r : re) : forall s rem, In rem (run r s) <-> den r s rem.
Proof.
  induction r as [c| | |r1 IH1 r2 IH2|]; intros s rem; simpl.
  - destruct s as [|c' s]; [split; [contradiction | discriminate]|].
    destruct (Ascii.eqb_spec c c') as [->|N]; simpl.
    + split; [intros [-> | []]; reflexivity | intros H; inversion H; now left].
    + split; [contradiction | intros H; inversion H; congruence].
  - destruct s as [|c' s]; [split; [contradiction | intros (c & H & _); discriminate H]|].
    destruct (line_terminator c') eqn:L; simpl.
    + split; [contradiction | intros (c & H & Lc); inversion H; subst; congruence].
    + split; [intros [-> | []]; eauto | intros (c & H & _); inversion H; now left].
  - apply dotstar_spec.
  - rewrite in_flat_map. split.
    + intros (mid & H1 & H2). exists mid. split; [now apply IH1 | now apply IH2].
    + intros (mid & H1 & H2). exists mid. split; [now apply IH1 | now apply IH2].
  - destruct s; simpl; [|split; [contradiction | intros [H _]; discriminate H]].
    split; [intros [<- | []]; auto | intros [_ ->]; now left].
Qed.

Lemma test_spec (r : re) (s : string) :
  test r s = true <-> exists pre suf rem, s = (pre ++ suf)%string /\ den r suf rem.
Proof.
  induction s as [|c s IH].
  - simpl. destruct (run r EmptyString) as [|x l] eqn:R.
    + split; [discriminate|]. intros (pre & suf & rem & H & D).
      destruct pre; [|discriminate H]. simpl in H. subst suf.
      apply run_spec in D. rewrite R in D. contradiction.
    + split; [intros _|reflexivity]. exists EmptyString, EmptyString, x.
      split; [reflexivity|]. apply run_spec. rewrite R. now left.
  - change (test r (String c s))
      with (match run r (String c s) with _ :: _ => true | [] => test r s end).
    destruct (run r (String c s)) as [|x l] eqn:R.
    + rewrite IH. split.
      * intros (pre & suf & rem & -> & D). exists (String c pre), suf, rem. auto.
      * intros (pre & suf & rem & H & D). destruct pre as [|y pre]; simpl in H.
        -- subst suf. apply run_spec in D. rewrite R in D. contradiction.
        -- inversion H. eauto.
    + split; [intros _|reflexivity]. exists EmptyString, (String c s), x.
      split; [reflexivity|]. apply run_spec. rewrite R. now left.
Qed.

Lemma lit_spec (w : string) (k : re) (s rem : string) :
  den (lit w k) s rem <-> exists mid, s = (w ++ mid)%string /\ den k mid rem.
Proof.
  revert s. induction w as [|c w IH]; intros s; simpl.
  - split; [intros H; eauto | intros (mid & -> & H); exact H].
  - split.
    + intros (mid & -> & H). apply IH in H. destruct H as (mid' & -> & H). eauto.
    + intros (mid & -> & H). exists (w ++ mid)%string. split; [reflexivity|].
      apply IH. eauto.
Qed.

(** The pattern accepts exactly the strings that, from some position on,
    read [https://], then anything on one line, then [.vercel.app] at the
    very end.  What comes before [https://] is not looked at. *)
Lemma vercel_pattern_spec (o : string) :
  test vercel_pattern o = true
  <-> exists pre mid, o = (pre ++ "https://" ++ mid ++ ".vercel.app")%string /\ plain mid = true.
Proof.
  rewrite test_spec. unfold vercel_pattern. split.
  - intros (pre & suf & rem & -> & D).
    apply lit_spec in D. destruct D as (m1 & -> & D).
    cbn [den] in D. destruct D as (m2 & (mid & -> & P) & D).
    apply lit_spec in D. destruct D as (m3 & -> & [-> ->]).
    exists pre, mid. auto.
  - intros (pre & mid & -> & P).
    exists pre, ("https://" ++ mid ++ ".vercel.app")%string, EmptyString.
    split; [reflexivity|].
    apply lit_spec. exists (mid ++ ".vercel.app")%string. split; [reflexivity|].
    cbn [den]. exists ".vercel.app". split; [eauto|].
    apply lit_spec. exists EmptyString. simpl. auto.
Qed.

(** X14: the origin check lets a request through exactly when it carries no
    origin (or an empty one), or its origin is one of the three listed
    addresses or the configured FRONTEND_URL, or the origin ends in
    [.vercel.app] after an [https://] that may stand anywhere in it: the
    pattern is not anchored at its start. *)
Theorem origin_allowed_iff (FRONTEND_URL : option string) (origin : option string) :
  cors_origin FRONTEND_URL origin = inr tt
  <-> match origin with
      | None => True
      | Some o =>
          o = EmptyString
          \/ o = "http://localhost:5173"
          \/ o = "http://localhost:3000"
          \/ o = "https://front-end-server-mz4as6cxr-yashwanths-projects-7a956bf7.vercel.app"
          \/ FRONTEND_URL = Some o
          \/ exists pre mid,
               o = (pre ++ "https://" ++ mid ++ ".vercel.app")%string /\ plain mid = true
      end.
Proof.
  destruct origin as [o|]; [|simpl; tauto].
  destruct o as [|c o]; [simpl; tauto|].
  set (O := String c o). unfold cors_origin. fold O.
  destruct (existsb _ (allowedOrigins FRONTEND_URL)) eqn:E.
  - split; [intros _|reflexivity].
    apply existsb_exists in E. destruct E as (a & Ha & Ta). right.
    simpl in Ha.
    destruct Ha as [<- | [<- | [<- | [<- | [<- | []]]]]]; cbv beta iota in Ta.
    + apply String.eqb_eq in Ta. rewrite <- Ta. tauto.
    + apply String.eqb_eq in Ta. rewrite <- Ta. tauto.
    + apply String.eqb_eq in Ta. rewrite <- Ta. tauto.
    + destruct FRONTEND_URL as [f|]; [|discriminate Ta].
      apply String.eqb_eq in Ta. rewrite Ta. tauto.
    + apply vercel_pattern_spec in Ta. tauto.
  - split; [discriminate|]. intros H. exfalso.
    assert (X : existsb (fun a => match a with
                                  | Pattern r => test r O
                                  | Exact (Some s0) => (s0 =? O)%string
                                  | Exact None => false
                                  end) (allowedOrigins FRONTEND_URL) = true); [|congruence].
    apply existsb_exists.
    destruct H as [H | [H | [H | [H | [H | H]]]]].
    + discriminate H.
    + exists (Exact (Some "http://localhost:5173")). split; [simpl; tauto|].
      rewrite H. apply String.eqb_refl.
    + exists (Exact (Some "http://localhost:3000")). split; [simpl; tauto|].
      rewrite H. apply String.eqb_refl.
    + eexists (Exact (Some _)). split; [simpl; right; right; left; reflexivity|].
      rewrite H. apply String.eqb_refl.
    + exists (Exact FRONTEND_URL). split; [simpl; tauto|].
      rewrite H. apply String.eqb_refl.
    + exists (Pattern vercel_pattern). split; [simpl; tauto|].
      now apply vercel_pattern_spec.
Qed.

(** X15: a refused origin is always answered 403 by the error handler, with
    the middleware's message, which ends in the origin refused; a request
    that is let through is not answered by the gate at all. *)
Theorem refused_origin_is_answered_403 (FRONTEND_URL origin : option string) :
  match cors_gate FRONTEND_URL origin with
  | None => cors_origin FRONTEND_URL origin = inr tt
  | Some answer =>
      exists o,
        origin = Some o
        /\ cors_origin FRONTEND_URL origin = inl (CORS_MESSAGE ++ o)%string
        /\ answer = (403, CorsError (CORS_MESSAGE ++ o)%string origin)
  end.
Proof.
  unfold cors_gate.
  destruct (cors_origin FRONTEND_URL origin) as [msg|[]] eqn:C; [|reflexivity].
  unfold cors_origin in C.
  destruct origin as [o|]; [|discriminate C].
  destruct o as [|c o]; [discriminate C|].
  destruct (existsb _ _); [discriminate C|].
  inversion C; subst. exists (String c o). repeat split.
Qed.

(** The error handler classifies by message first: an error whose
    message mentions the CORS policy is a 403 even when it carries the
    connection-refused code; without that mention, connection-refused is a
    503 and everything else a 500. *)
Theorem error_handler_status (err : js_error) (origin : option string) :
  let st := fst (error_handler err origin) in
  ((exists a b, message err = (a ++ "CORS policy" ++ b)%string) -> st = 403)
  /\ (~ (exists a b, message err = (a ++ "CORS policy" ++ b)%string) ->
      (code err = Some "ECONNREFUSED" -> st = 503)
      /\ (code err <> Some "ECONNREFUSED" -> st = 500)).
Proof.
  unfold error_handler. split.
  - intros H. apply includes_spec in H. now rewrite H.
  - intros H. destruct (includes "CORS policy" (message err)) eqn:I.
    + exfalso. apply H. now apply includes_spec.
    + split.
      * intros ->. reflexivity.
      * intros N. destruct (code err) as [c|]; [|reflexivity].
        destruct (String.eqb_spec c "ECONNREFUSED") as [->|Ne]; [now elim N|].
        destruct c as [|a0 c]; [reflexivity|].
        repeat (match goal with
                | |- fst (match ?x with _ => _ end) = _ => destruct x
                | |- fst (if ?b then _ else _) = _ => destruct b
                end; try reflexivity; try (exfalso; apply Ne; reflexivity)).
Qed.

(** * Schema initialisation: [initializeDatabase_table] *)

(** What the store holds before and while it is initialised: each table
    with its rows if it exists (the attendance table with its sequence),
    and whether each index exists. *)
Record catalog : Type := mkCatalog {
  employees_table : option (list employee);
  attendance_table : option (list attendance * Z);
  idx_attendance_emp_date : bool;
  idx_attendance_date : bool
}.

Definition empty_catalog : catalog := mkCatalog None None false false.

(** The four statements of [initializeDatabase_table]. *)
Inductive ddl : Type :=
| CreateEmployees
| CreateAttendanceRecords
| CreateIdxEmpDate
| CreateIdxDate.

Definition ERR_NO_EMPLOYEES : string := "relation employees does not exist".
Definition ERR_NO_ATTENDANCE : string := "relation attendance_records does not exist".

(** [CREATE TABLE IF NOT EXISTS] leaves an existing table alone; the
    attendance table refers to employees, which must exist when it is
    created; [CREATE INDEX IF NOT EXISTS ... ON attendance_records] needs
    that table. *)
Definition exec_ddl (q : ddl) (c : catalog) : string + catalog :=
  match q with
  | CreateEmployees =>
      match employees_table c with
      | Some _ => inr c
      | None => inr (mkCatalog (Some []) (attendance_table c)
                       (idx_attendance_emp_date c) (idx_attendance_date c))
      end
  | CreateAttendanceRecords =>
      match attendance_table c with
      | Some _ => inr c
      | None =>
          match employees_table c with
          | None => inl ERR_NO_EMPLOYEES
          | Some _ => inr (mkCatalog (employees_table c) (Some ([], 1))
                             (idx_attendance_emp_date c) (idx_attendance_date c))
          end
      end
  | CreateIdxEmpDate =>
      match attendance_table c with
      | None => inl ERR_NO_ATTENDANCE
      | Some _ => inr (mkCatalog (employees_table c) (attendance_table c)
                         true (idx_attendance_date c))
      end
  | CreateIdxDate =>
      match attendance_table c with
      | None => inl ERR_NO_ATTENDANCE
      | Some _ => inr (mkCatalog (employees_table c) (attendance_table c)
                         (idx_attendance_emp_date c) true)
      end
  end.

(** The statements in order, each awaited; the first one rejected, by an
    engine fault or by the catalog, ends the [try] block. *)
Fixpoint run_ddl (fault : nat -> option string) (n : nat) (qs : list ddl) (c : catalog)
  : option string * catalog :=
  match qs with
  | [] => (None, c)
  | q :: qs' =>
      match fault n with
      | Some err => (Some err, c)
      | None =>
          match exec_ddl q c with
          | inl err => (Some err, c)
          | inr c' => run_ddl fault (S n) qs' c'
          end
      end
  end.

(** [initializeDatabase_table]: the error the returned promise rejects
    with, if any, and the catalog left behind.  [server.js] logs and
    rethrows in its [catch] ([rethrows = true]); the other entry point
    only logs. *)
Definition initializeDatabase_table (rethrows : bool) (fault : nat -> option string)
           (c : catalog) : option string * catalog :=
  match run_ddl fault 0 [CreateEmployees; CreateAttendanceRecords;
                         CreateIdxEmpDate; CreateIdxDate] c with
  | (Some err, c') => (if rethrows then Some err else None, c')
  | (None, c') => (None, c')
  end.

(** The catalog as a database, once both tables exist. *)
Definition database_of (c : catalog) : option database :=
  match employees_table c, attendance_table c with
  | Some es, Some (rs, seq) => Some (mkDatabase (mkTables es rs) seq)
  | _, _ => None
  end.

Definition complete (c : catalog) : Prop :=
  employees_table c <> None /\ attendance_table c <> None
  /\ idx_attendance_emp_date c = true /\ idx_attendance_date c = true.

Definition no_fault : nat -> option string := fun _ => None.

(** X16: from any catalog, an initialisation that no engine fault interrupts
    ends with both tables and both indexes in place, whether it rethrows
    or not; tables that existed keep their rows and sequence, tables that
    did not are empty; on a fresh store the result is [initial_db]; and
    running it again changes nothing. *)
Theorem initialisation_completes (rethrows : bool) (c : catalog) :
  let c' := snd (initializeDatabase_table rethrows no_fault c) in
  fst (initializeDatabase_table rethrows no_fault c) = None
  /\ complete c'
  /\ employees_table c' = Some (match employees_table c with Some es => es | None => [] end)
  /\ attendance_table c'
     = Some (match attendance_table c with Some t => t | None => ([], 1) end)
  /\ database_of (snd (initializeDatabase_table rethrows no_fault empty_catalog))
     = Some initial_db
  /\ initializeDatabase_table rethrows no_fault c' = (None, c').
Proof.
  destruct c as [[es|] [[rs sq]|] i1 i2]; destruct rethrows;
    cbv [initializeDatabase_table run_ddl exec_ddl no_fault complete database_of
         employees_table attendance_table idx_attendance_emp_date idx_attendance_date
         empty_catalog initial_db fst snd];
    repeat split; discriminate.
Qed.

(** The four statements, in the order they are sent. *)
Definition init_script : list ddl :=
  [CreateEmployees; CreateAttendanceRecords; CreateIdxEmpDate; CreateIdxDate].

(** X17: an initialisation interrupted at any statement leaves a catalog from
    which a later uninterrupted one reaches the very state an
    uninterrupted one would have reached at once: no statement undoes
    another, and none needs to be undone.  Whichever of the four
    statements is the first to be rejected, with whatever error, the
    catalog left is that of the statements before it, and the promise
    rejects with that error in [server.js] and resolves in the other
    entry point; with no statement rejected the promise resolves in
    both. *)
Theorem initialisation_recovers (rethrows : bool) (fault : nat -> option string) (c : catalog) :
  let first := initializeDatabase_table rethrows fault c in
  snd (initializeDatabase_table rethrows no_fault (snd first))
  = snd (initializeDatabase_table rethrows no_fault c)
  /\ (forall (k : nat) (err : string),
        (k < 4)%nat -> fault k = Some err -> (forall j, (j < k)%nat -> fault j = None) ->
        first = (if rethrows then Some err else None,
                 snd (run_ddl no_fault 0 (firstn k init_script) c)))
  /\ ((forall k, (k < 4)%nat -> fault k = None) -> fst first = None /\ complete (snd first))
  /\ (rethrows = false -> fst first = None).
Proof.
  intros first. subst first. split; [|split; [|split]].
  - destruct c as [[es|] [[rs sq]|] i1 i2]; destruct rethrows;
      cbv [initializeDatabase_table run_ddl exec_ddl no_fault
           employees_table attendance_table idx_attendance_emp_date idx_attendance_date
           fst snd];
      destruct (fault 0%nat) as [e0|]; cbv beta iota;
      try destruct (fault 1%nat) as [e1|]; cbv beta iota;
      try destruct (fault 2%nat) as [e2|]; cbv beta iota;
      try destruct (fault 3%nat) as [e3|]; cbv beta iota;
      reflexivity.
  - intros k err Hk Fk Before.
    assert (F0 : (0 < k)%nat -> fault 0%nat = None) by (intros; apply Before; lia).
    assert (F1 : (1 < k)%nat -> fault 1%nat = None) by (intros; apply Before; lia).
    assert (F2 : (2 < k)%nat -> fault 2%nat = None) by (intros; apply Before; lia).
    destruct k as [|[|[|[|k]]]]; [| | | |lia];
      try rewrite (F0 ltac:(lia)); try rewrite (F1 ltac:(lia)); try rewrite (F2 ltac:(lia));
      destruct c as [[es|] [[rs sq]|] i1 i2]; destruct rethrows;
      cbv [initializeDatabase_table run_ddl exec_ddl no_fault firstn init_script
           employees_table attendance_table idx_attendance_emp_date idx_attendance_date
           fst snd];
      try rewrite (F0 ltac:(lia)); cbv beta iota;
      try rewrite (F1 ltac:(lia)); cbv beta iota;
      try rewrite (F2 ltac:(lia)); cbv beta iota;
      rewrite Fk; reflexivity.
  - intros None4.
    destruct c as [[es|] [[rs sq]|] i1 i2]; destruct rethrows;
      cbv [initializeDatabase_table run_ddl exec_ddl complete
           employees_table attendance_table idx_attendance_emp_date idx_attendance_date
           fst snd];
      rewrite (None4 0%nat ltac:(lia)); cbv beta iota;
      rewrite (None4 1%nat ltac:(lia)); cbv beta iota;
      rewrite (None4 2%nat ltac:(lia)); cbv beta iota;
      rewrite (None4 3%nat ltac:(lia)); cbv beta iota;
      repeat split; discriminate.
  - intros ->.
    unfold initializeDatabase_table.
    destruct (run_ddl fault 0 _ c) as [[err|] c']; reflexivity.
Qed.

(** * The further properties at work on the reference engine *)

Definition deadlocked : env := mkEnv 600 (fun _ => Some "deadlock detected").

Definition E2_overwrite : request :=
  POST_attendance (JStr "E2") (JStr "Robert") (JStr "WFH") (JStr "2024-01-11").

Definition E1_new_day : request :=
  POST_attendance (JStr "E1") (JStr "Ally") (JStr "WFO") (JStr "2024-01-15").

(** Statistics under a deadlock: answered, nothing written. *)
Lemma get_routes_never_write_witness :
  final (iso_serve deadlocked GET_stats db5) = db5
  /\ open_txn (iso_serve deadlocked GET_stats db5) = false.
Proof.
  destruct (get_routes_never_write iso_date_in dec_int4_in String.leb deadlocked GET_stats db5
              eq_refl) as (A & _ & B & _).
  split; [exact A | exact B].
Defined.

(** A 500 from the attendance upsert: the tables are the ones found, Bob's
    employee row included in what was rolled back. *)
Lemma database_changes_only_on_200_witness :
  tbl (final (iso_serve (healthy 250) E2_bad_date db2)) = tbl db2
  /\ outcome (iso_serve (healthy 250) E2_bad_date db2)
     = inr (mkResponse 500 (ErrorBody ERR_DATE)).
Proof.
  split; [|reflexivity].
  apply (database_changes_only_on_200 iso_date_in dec_int4_in String.leb (healthy 250)
           E2_bad_date db2 (mkResponse 500 (ErrorBody ERR_DATE)) eq_refl).
  discriminate.
Defined.

(** Renaming E1 through [POST /employees]: the records keep the name they
    were written with. *)
Lemma employee_upsert_effect_witness :
  let r := iso_serve (healthy 700) (POST_employees (JStr "E1") (JStr "Alice Smith")) db5 in
  attendance_records (tbl (final r)) = attendance_records (tbl db5)
  /\ filter (fun y => (emp_id y =? "E1")%string) (employees (tbl (final r)))
     = [mkEmployee "E1" "Alice Smith" 100 700].
Proof.
  destruct (employee_upsert_effect iso_date_in dec_int4_in String.leb (healthy 700) db5
              (JStr "E1") (JStr "Alice Smith")
              (mkResponse 200 (EmployeeSaved "Employee saved successfully" (JStr "E1")))
              db5_reachable eq_refl eq_refl)
    as (si & sn & c & Pi & Pn & F & Old & _ & _ & A & _).
  split; [exact A|]. reflexivity.
Defined.

(** A new day for E1 under a new name: the employee row follows. *)
Lemma attendance_upsert_renames_the_employee_witness :
  exists c,
    filter (fun y => (emp_id y =? "E1")%string)
      (employees (tbl (final (iso_serve (healthy 700) E1_new_day db5))))
    = [mkEmployee "E1" "Ally" c 700]
    /\ c = 100.
Proof.
  destruct (attendance_upsert_renames_the_employee iso_date_in dec_int4_in String.leb
              db5 (healthy 700) (JStr "E1") (JStr "Ally") (JStr "WFO") (JStr "2024-01-15")
              ADDED 6 db5_reachable eq_refl)
    as (si & sn & c & Pi & Pn & F & Old).
  injection Pi as <-. injection Pn as <-.
  exists c. split; [exact F|].
  apply (Old (mkEmployee "E1" "Alicia" 100 400)); [|reflexivity].
  vm_compute. left. reflexivity.
Defined.

(** Record 3 is deleted; the next new record gets id 6, not 3. *)
Lemma deleted_ids_never_return_witness :
  let later := serve_all iso_date_in dec_int4_in String.leb
                 [(healthy 700, E2_overwrite)]
                 (final (iso_serve (healthy 600) (DELETE_attendance "3") db5)) in
  ~ In 3 (map id (attendance_records (tbl later)))
  /\ map id (attendance_records (tbl later)) = [1; 4; 5; 6].
Proof.
  split; [|reflexivity].
  apply (deleted_ids_never_return iso_date_in dec_int4_in String.leb db5 (healthy 600) "3" 3
           (mkResponse 200 (MessageBody "Record deleted successfully"))
           [(healthy 700, E2_overwrite)] db5_reachable eq_refl eq_refl eq_refl).
Defined.

(** Overwriting Bob's record returns its id 3 and still moves the
    sequence from 6 to 7. *)
Lemma returned_id_witness :
  outcome (iso_serve (healthy 700) E2_overwrite db5)
  = inr (mkResponse 200 (AttendanceAdded ADDED 3))
  /\ id_seq (final (iso_serve (healthy 700) E2_overwrite db5)) = id_seq db5 + 1.
Proof.
  destruct (returned_id iso_date_in dec_int4_in String.leb db5 (healthy 700)
              (JStr "E2") (JStr "Robert") (JStr "WFH") (JStr "2024-01-11") ADDED 3
              db5_reachable eq_refl)
    as (si & sd & dd & _ & _ & _ & S & _).
  split; [reflexivity | exact S].
Defined.

Lemma delete_again_is_not_found_witness :
  let db6 := final (iso_serve (healthy 600) (DELETE_attendance "3") db5) in
  outcome (iso_serve (healthy 700) (DELETE_attendance "3") db6)
  = inr (mkResponse 404 (ErrorBody "Record not found"))
  /\ final (iso_serve (healthy 700) (DELETE_attendance "3") db6) = db6.
Proof.
  apply (delete_again_is_not_found iso_date_in dec_int4_in String.leb
           (healthy 600) (healthy 700) db5 "3"
           (mkResponse 200 (MessageBody "Record deleted successfully"))
           eq_refl eq_refl eq_refl).
Defined.

(** An employee nobody has heard of: 200 and no rows. *)
Lemma list_by_employee_witness :
  outcome (iso_serve (healthy 600) (GET_attendance_of "E9") db5)
  = inr (mkResponse 200 (RowsBody [])).
Proof.
  destruct (list_by_employee iso_date_in dec_int4_in String.leb (healthy 600) db5 "E9" eq_refl)
    as (rows & O & _ & _ & _ & Empty).
  rewrite <- Empty; [exact O|].
  vm_compute. intros [C | [C | [C | [C | []]]]]; discriminate C.
Defined.

Lemma list_employees_witness :
  exists rows,
    outcome (iso_serve (healthy 600) GET_employees db5)
    = inr (mkResponse 200 (EmployeesBody rows))
    /\ map name rows = ["Alicia"; "Bob"; "Carol"].
Proof.
  destruct (list_employees iso_date_in dec_int4_in String.leb (healthy 600) db5
              String.leb_total eq_refl) as (rows & O & _).
  exists rows. split; [exact O|].
  vm_compute in O. injection O as <-. reflexivity.
Defined.

Lemma written_is_read_back_witness :
  exists rows,
    outcome (iso_serve (healthy 800) (GET_attendance_of "E1")
               (final (iso_serve (healthy 700) E1_new_day db5)))
    = inr (mkResponse 200 (RowsBody rows))
    /\ In (mkAttendance 6 "E1" "Ally" "WFO" 19737 700) rows.
Proof.
  destruct (proj1 (written_is_read_back iso_date_in dec_int4_in String.leb
                     (healthy 700) (healthy 800) db5 eq_refl)
              (JStr "E1") (JStr "Ally") (JStr "WFO") (JStr "2024-01-15") ADDED 6 eq_refl)
    as (si & sn & sty & sd & dd & rows & Pi & Pn & Pty & Pd & D & O & I).
  injection Pi as <-. injection Pn as <-. injection Pty as <-. injection Pd as <-.
  injection D as <-.
  exists rows. split; [exact O | exact I].
Defined.

(** A fresh store, the first index creation rejected: [server.js] rejects
    with that error, both tables are in place, no index is; the next
    start completes the schema. *)
Definition index_fault : nat -> option string :=
  fun k => match k with 2%nat => Some "canceling statement due to statement timeout" | _ => None end.

Lemma initialisation_recovers_witness :
  initializeDatabase_table true index_fault empty_catalog
  = (Some "canceling statement due to statement timeout",
     mkCatalog (Some []) (Some ([], 1)) false false)
  /\ initializeDatabase_table false index_fault empty_catalog
     = (None, mkCatalog (Some []) (Some ([], 1)) false false)
  /\ snd (initializeDatabase_table true no_fault
            (snd (initializeDatabase_table true index_fault empty_catalog)))
     = mkCatalog (Some []) (Some ([], 1)) true true.
Proof.
  destruct (initialisation_recovers true index_fault empty_catalog) as (Again & Cut & _).
  destruct (initialisation_recovers false index_fault empty_catalog) as (_ & Cut' & _).
  split; [|split].
  - apply (Cut 2%nat "canceling statement due to statement timeout"); [lia|reflexivity|].
    intros [|[|j]] Hj; [reflexivity|reflexivity|lia].
  - apply (Cut' 2%nat "canceling statement due to statement timeout"); [lia|reflexivity|].
    intros [|[|j]] Hj; [reflexivity|reflexivity|lia].
  - exact Again.
Defined.

(** An origin that only ends like a Vercel deployment passes the check. *)
Example lookalike_origin_passes :
  cors_origin None (Some "http://evil.example/?https://x.vercel.app") = inr tt
  /\ cors_gate None (Some "https://evil.example")
     = Some (403, CorsError (CORS_MESSAGE ++ "https://evil.example")%string
                    (Some "https://evil.example")).
Proof. split; reflexivity. Qed.
